(** * viem: the typed JSON-RPC schema (types/eip1193.ts), the test action
      [increaseTime] and the client constructor

    The schema file is type-level TypeScript: its "program" is a set of type
    definitions and type operators.  The embedding therefore has two layers:

    - [TsType] is the syntax of the TypeScript types the file writes down,
      and the tables [PublicRpcSchema], [TestRpcSchema], [WalletRpcSchema]
      are transcribed entry by entry;
    - the type operators of the file ([EIP1193Parameters],
      [DerivedRpcSchema], [EIP1193RequestFn] with its [Extract] and indexed
      accesses) are functions on that syntax.

    The action [increaseTime] is value-level code and is embedded in a small
    monad of client actions. *)

From Stdlib Require Import List String Ascii Bool Arith Lia ZArith NArith.
From Stdlib Require Import HexadecimalString HexadecimalN.
Import ListNotations.
Local Open Scope string_scope.
Local Open Scope list_scope.

Set Implicit Arguments.

(* ================================================================== *)
(** * TypeScript types *)
(* ================================================================== *)

(** The fragment of TypeScript's type language that eip1193.ts uses.
    Types imported from other modules ([Address], [Hash], [Hex], [Quantity],
    [BlockTag], the [Rpc...] aliases) are opaque names, [TRef]; the utility
    types [Partial] and [Record] applied to arguments are [TApp]. *)
#[local] Unset Elimination Schemes.
Inductive TsType : Type :=
| TAny
| TUnknown
| TNever
| TVoid
| TUndefined
| TNull
| TString
| TNumber
| TBoolean
| TStrLit (s : string)                       (* 'eth_call' *)
| TBoolLit (b : bool)                        (* false *)
| TTemplate (prefix : string)                (* `http://${string}` *)
| TRef (name : string)                       (* Address, Quantity, ... *)
| TApp (name : string) (args : list TsType)  (* Partial<T>, Record<K, V> *)
| TArray (elem : TsType)                     (* T[] *)
| TTuple (elems : list (option string * TsType))   (* [a: A, b: B] *)
| TObject (props : list (string * bool * TsType))  (* { k: T; k'?: T' } *)
| TUnion (members : list TsType)             (* A | B *)
| TIntersection (members : list TsType).     (* A & B *)

#[local] Set Elimination Schemes.

(** A property of an object type: name, whether it is optional ([k?: T]),
    and its declared type. *)
Definition Property : Type := (string * bool * TsType)%type.

Section TsType_induction.
Variable P : TsType -> Prop.
Hypothesis HAny : P TAny.
Hypothesis HUnknown : P TUnknown.
Hypothesis HNever : P TNever.
Hypothesis HVoid : P TVoid.
Hypothesis HUndefined : P TUndefined.
Hypothesis HNull : P TNull.
Hypothesis HString : P TString.
Hypothesis HNumber : P TNumber.
Hypothesis HBoolean : P TBoolean.
Hypothesis HStrLit : forall s, P (TStrLit s).
Hypothesis HBoolLit : forall b, P (TBoolLit b).
Hypothesis HTemplate : forall p, P (TTemplate p).
Hypothesis HRef : forall n, P (TRef n).
Hypothesis HApp : forall n args, Forall P args -> P (TApp n args).
Hypothesis HArray : forall t, P t -> P (TArray t).
Hypothesis HTuple :
  forall elems, Forall (fun e => P (snd e)) elems -> P (TTuple elems).
Hypothesis HObject :
  forall props, Forall (fun p => P (snd p)) props -> P (TObject props).
Hypothesis HUnion : forall ms, Forall P ms -> P (TUnion ms).
Hypothesis HIntersection : forall ms, Forall P ms -> P (TIntersection ms).

(** Induction over types that reaches through the nested lists. *)
Fixpoint TsType_nested_ind (t : TsType) : P t :=
  match t with
  | TAny => HAny
  | TUnknown => HUnknown
  | TNever => HNever
  | TVoid => HVoid
  | TUndefined => HUndefined
  | TNull => HNull
  | TString => HString
  | TNumber => HNumber
  | TBoolean => HBoolean
  | TStrLit s => HStrLit s
  | TBoolLit b => HBoolLit b
  | TTemplate p => HTemplate p
  | TRef n => HRef n
  | TApp n args =>
      HApp n
        ((fix go (l : list TsType) : Forall P l :=
            match l with
            | [] => Forall_nil _
            | x :: l' => Forall_cons x (TsType_nested_ind x) (go l')
            end) args)
  | TArray t' => HArray (TsType_nested_ind t')
  | TTuple elems =>
      HTuple
        ((fix go (l : list (option string * TsType))
            : Forall (fun e => P (snd e)) l :=
            match l with
            | [] => Forall_nil _
            | x :: l' =>
                Forall_cons x (TsType_nested_ind (snd x)) (go l')
            end) elems)
  | TObject props =>
      HObject
        ((fix go (l : list Property) : Forall (fun p => P (snd p)) l :=
            match l with
            | [] => Forall_nil _
            | x :: l' =>
                Forall_cons x (TsType_nested_ind (snd x)) (go l')
            end) props)
  | TUnion ms =>
      HUnion
        ((fix go (l : list TsType) : Forall P l :=
            match l with
            | [] => Forall_nil _
            | x :: l' => Forall_cons x (TsType_nested_ind x) (go l')
            end) ms)
  | TIntersection ms =>
      HIntersection
        ((fix go (l : list TsType) : Forall P l :=
            match l with
            | [] => Forall_nil _
            | x :: l' => Forall_cons x (TsType_nested_ind x) (go l')
            end) ms)
  end.
End TsType_induction.

(** ** Type identity

    Two types are identical when they are written the same way (tuple labels
    included).  TypeScript collapses identical members of a union; the test
    below is what [mk_union] uses for that. *)

Definition option_string_eqb (a b : option string) : bool :=
  match a, b with
  | None, None => true
  | Some x, Some y => String.eqb x y
  | _, _ => false
  end.

Fixpoint TsType_eqb (a b : TsType) {struct a} : bool :=
  match a, b with
  | TAny, TAny | TUnknown, TUnknown | TNever, TNever | TVoid, TVoid
  | TUndefined, TUndefined | TNull, TNull | TString, TString
  | TNumber, TNumber | TBoolean, TBoolean => true
  | TStrLit s, TStrLit s' => String.eqb s s'
  | TBoolLit x, TBoolLit y => Bool.eqb x y
  | TTemplate p, TTemplate p' => String.eqb p p'
  | TRef n, TRef n' => String.eqb n n'
  | TApp n l, TApp n' l' =>
      String.eqb n n' &&
      (fix go (l1 l2 : list TsType) {struct l1} : bool :=
         match l1, l2 with
         | [], [] => true
         | x :: l1', y :: l2' => TsType_eqb x y && go l1' l2'
         | _, _ => false
         end) l l'
  | TArray x, TArray y => TsType_eqb x y
  | TTuple l, TTuple l' =>
      (fix go (l1 l2 : list (option string * TsType)) {struct l1} : bool :=
         match l1, l2 with
         | [], [] => true
         | (n1, x) :: l1', (n2, y) :: l2' =>
             option_string_eqb n1 n2 && TsType_eqb x y && go l1' l2'
         | _, _ => false
         end) l l'
  | TObject l, TObject l' =>
      (fix go (l1 l2 : list Property) {struct l1} : bool :=
         match l1, l2 with
         | [], [] => true
         | (k1, o1, x) :: l1', (k2, o2, y) :: l2' =>
             String.eqb k1 k2 && Bool.eqb o1 o2 && TsType_eqb x y
             && go l1' l2'
         | _, _ => false
         end) l l'
  | TUnion l, TUnion l' =>
      (fix go (l1 l2 : list TsType) {struct l1} : bool :=
         match l1, l2 with
         | [], [] => true
         | x :: l1', y :: l2' => TsType_eqb x y && go l1' l2'
         | _, _ => false
         end) l l'
  | TIntersection l, TIntersection l' =>
      (fix go (l1 l2 : list TsType) {struct l1} : bool :=
         match l1, l2 with
         | [], [] => true
         | x :: l1', y :: l2' => TsType_eqb x y && go l1' l2'
         | _, _ => false
         end) l l'
  | _, _ => false
  end.

(* ================================================================== *)
(** * Type operators *)
(* ================================================================== *)

(** The members of a type seen as a union: [never] is the empty union and a
    type that is not a union is the union of itself. *)
Definition members (t : TsType) : list TsType :=
  match t with
  | TUnion l => l
  | TNever => []
  | _ => [t]
  end.

(** Identical types are kept once, at their first occurrence. *)
Fixpoint dedupe_from (seen l : list TsType) : list TsType :=
  match l with
  | [] => []
  | x :: l' =>
      if existsb (TsType_eqb x) seen then dedupe_from seen l'
      else x :: dedupe_from (x :: seen) l'
  end.

Definition dedupe (l : list TsType) : list TsType := dedupe_from [] l.

Definition is_any (t : TsType) : bool :=
  match t with TAny => true | _ => false end.

Definition is_unknown (t : TsType) : bool :=
  match t with TUnknown => true | _ => false end.

(** [A | B | ...]: identical constituents collapse; a union of one type is
    that type and the empty union is [never]; otherwise nested unions are
    flattened, [never] disappears, and [any] (then [unknown]) absorbs the
    rest. *)
Definition mk_union (l : list TsType) : TsType :=
  match dedupe l with
  | [] => TNever
  | [t] => t
  | ts =>
      let flat := dedupe (flat_map members ts) in
      if existsb is_any flat then TAny
      else if existsb is_unknown flat then TUnknown
      else match flat with
           | [] => TNever
           | [t] => t
           | _ => TUnion flat
           end
  end.

(** The declaration of property [k] in a list of properties. *)
Fixpoint lookup_prop (k : string) (props : list Property) : option (bool * TsType) :=
  match props with
  | [] => None
  | (k', opt, ty) :: props' =>
      if String.eqb k k' then Some (opt, ty) else lookup_prop k props'
  end.

(** Property [k] of an object type, or of an intersection of them: an
    intersection has the properties of all its members; a property that
    several members declare has the intersection of their types and is
    optional only if it is optional in each. *)
Fixpoint prop_of (t : TsType) (k : string) {struct t} : option (bool * TsType) :=
  match t with
  | TObject props => lookup_prop k props
  | TIntersection ms =>
      (fix go (l : list TsType) : option (bool * TsType) :=
         match l with
         | [] => None
         | m :: l' =>
             match prop_of m k, go l' with
             | None, r => r
             | Some d, None => Some d
             | Some (o1, t1), Some (o2, t2) =>
                 Some (o1 && o2,
                       match t2 with
                       | TIntersection ts => TIntersection (t1 :: ts)
                       | _ => TIntersection [t1; t2]
                       end)
             end
         end) ms
  | _ => None
  end.

(** What reading a property gives: an optional property may be absent, so
    its type is widened by [undefined]. *)
Definition read_type (d : bool * TsType) : TsType :=
  if fst d then mk_union [snd d; TUndefined] else snd d.

(** The indexed access type [T[k]] for a property name [k].  It distributes
    over a union, so [never[k]] is [never].  The compiler refuses an access
    to a property that a member does not have; its error type behaves as
    [any], which is what the model answers there. *)
Definition index_access (t : TsType) (k : string) : TsType :=
  mk_union
    (map (fun m => match prop_of m k with
                   | Some d => read_type d
                   | None => TAny
                   end)
         (members t)).

(** ** Assignability ([S extends T])

    Structural assignability on the fragment: [never] fits everything and
    everything fits [unknown] and [any]; a union source fits when each
    member does, a union target when some member accepts, an intersection
    target when every member accepts; literals fit their base type; tuples
    fit position by position, objects property by property (an optional
    target property may be missing, and accepts [undefined]); a source
    that is an intersection fits what one of its members fits.  Opaque
    names and type applications are related only to themselves.  The
    recursion is lexicographic: the outer fixpoint descends in the source
    type, the inner one in the target type. *)
Fixpoint assignable (s : TsType) {struct s} : TsType -> bool :=
  fix to (t : TsType) {struct t} : bool :=
    match s with
    | TNever => true
    | TAny => match t with TNever => false | _ => true end
    | TUnion ss => forallb (fun si => assignable si t) ss
    | _ =>
        match t with
        | TAny | TUnknown => true
        | TUnion ts => existsb to ts
        | TIntersection ts => forallb to ts
        | _ =>
            match s, t with
            | TStrLit a, TStrLit b => String.eqb a b
            | TStrLit _, TString => true
            | TStrLit a, TTemplate p => String.prefix p a
            | TTemplate _, TString => true
            | TTemplate p, TTemplate q => String.prefix q p
            | TBoolLit a, TBoolLit b => Bool.eqb a b
            | TBoolLit _, TBoolean => true
            | TUndefined, TVoid => true
            | TArray a, TArray b => assignable a b
            | TTuple es, TArray b =>
                forallb (fun e => assignable (snd e) b) es
            | TTuple es, TTuple fs =>
                (fix zip (l1 : list (option string * TsType))
                         (l2 : list (option string * TsType)) : bool :=
                   match l1, l2 with
                   | [], [] => true
                   | (_, x) :: l1', (_, y) :: l2' =>
                       assignable x y && zip l1' l2'
                   | _, _ => false
                   end) es fs
            | TObject ps, TObject qs =>
                forallb
                  (fun q : Property =>
                     let '(k, optq, tq) := q in
                     (fix find (l : list Property) : bool :=
                        match l with
                        | [] => optq
                        | (k', optp, tp) :: l' =>
                            if String.eqb k k' then
                              if optq
                              then assignable tp (mk_union [tq; TUndefined])
                              else negb optp && assignable tp tq
                            else find l'
                        end) ps)
                  qs
            | TIntersection ss, _ =>
                existsb (fun si => assignable si t) ss
            | _, _ => TsType_eqb s t
            end
        end
    end.

(** The conditional type [C extends T ? A : B] for a checked type that is
    not a naked type parameter (no distribution); [any] takes both
    branches. *)
Definition cond_extends (c t a b : TsType) : TsType :=
  match c with
  | TAny => mk_union [a; b]
  | _ => if assignable c t then a else b
  end.

(** [Extract<T, U>] = [T extends U ? T : never], distributed over the
    members of [T]. *)
Definition Extract (t u : TsType) : TsType :=
  mk_union (filter (fun m => assignable m u) (members t)).

(* ================================================================== *)
(** * types/eip1193.ts: the method tables *)
(* ================================================================== *)

(** ** Imported types

    [Address] comes from abitype, the others from ./block.js, ./misc.js and
    ./rpc.js (under the local aliases of the import list).  None of these
    modules is part of the sources at hand. *)

(** Modelled from the spec: the modules that declare [Address], [Hash],
    [Hex] and [Quantity] are missing.  The spec has a byte sequence on the
    wire as a [0x]-prefixed hexadecimal string and a quantity as a
    hexadecimal string: each of the four is the template literal type
    [`0x${string}`], and, aliases being transparent, they are one type. *)
Definition Address : TsType := TTemplate "0x".
Definition Hash : TsType := TTemplate "0x".
Definition Hex : TsType := TTemplate "0x".
Definition Quantity : TsType := TTemplate "0x".

(** The other imported names stay opaque. *)
Definition BlockTag : TsType := TRef "BlockTag".
Definition LogTopic : TsType := TRef "LogTopic".
Definition Block : TsType := TRef "RpcBlock".
Definition BlockIdentifier : TsType := TRef "RpcBlockIdentifier".
Definition BlockNumber : TsType := TRef "RpcBlockNumber".
Definition FeeHistory : TsType := TRef "RpcFeeHistory".
Definition Log : TsType := TRef "RpcLog".
Definition Transaction : TsType := TRef "RpcTransaction".
Definition TransactionReceipt : TsType := TRef "RpcTransactionReceipt".
Definition TransactionRequest : TsType := TRef "RpcTransactionRequest".
Definition Uncle : TsType := TRef "RpcUncle".

Definition Partial (t : TsType) : TsType := TApp "Partial" [t].
Definition Record_ (k v : TsType) : TsType := TApp "Record" [k; v].
Definition ReadonlyArray (t : TsType) : TsType := TApp "ReadonlyArray" [t].

(** Tuple elements, labelled ([data: Hash]) or not ([boolean]). *)
Definition lbl (name : string) (t : TsType) : option string * TsType :=
  (Some name, t).
Definition unl (t : TsType) : option string * TsType := (None, t).

(** Object properties, required ([k: T]) or optional ([k?: T]). *)
Definition req (k : string) (t : TsType) : Property := (k, false, t).
Definition opt (k : string) (t : TsType) : Property := (k, true, t).

(** ** Provider request types *)

Definition AddEthereumChainParameter : TsType :=
  TObject
    [ req "chainId" TString;
      req "chainName" TString;
      opt "nativeCurrency"
        (TObject [req "name" TString; req "symbol" TString;
                  req "decimals" TNumber]);
      req "rpcUrls" (ReadonlyArray TString);
      opt "blockExplorerUrls" (TArray TString);
      opt "iconUrls" (TArray TString) ].

Definition NetworkSync : TsType :=
  TObject
    [ req "currentBlock" Quantity;
      req "highestBlock" Quantity;
      req "startingBlock" Quantity ].

Definition WalletPermissionCaveat : TsType :=
  TObject [req "type" TString; req "value" TAny].

Definition WalletPermission : TsType :=
  TObject
    [ req "caveats" (TArray WalletPermissionCaveat);
      req "date" TNumber;
      req "id" TString;
      req "invoker" (TUnion [TTemplate "http://"; TTemplate "https://"]);
      req "parentCapability" (TUnion [TStrLit "eth_accounts"; TString]) ].

Definition WatchAssetParams : TsType :=
  TObject
    [ req "type" (TStrLit "ERC20");
      req "options"
        (TObject [req "address" TString; req "symbol" TString;
                  req "decimals" TNumber; opt "image" TString]) ].

(** ** Schema entries

    One element of an [RpcSchema]:
    [{ Method: string; Parameters?: unknown; ReturnType: unknown }].
    [Parameters_optional] records whether the entry writes [Parameters?:]
    or [Parameters:]. *)
Record RpcSchemaEntry : Type := {
  Method : string;
  Parameters_optional : bool;
  Parameters : TsType;
  ReturnType : TsType
}.

Definition RpcSchema : Type := list RpcSchemaEntry.

(** The entry as the object type it is. *)
Definition entry_type (e : RpcSchemaEntry) : TsType :=
  TObject
    [ ("Method", false, TStrLit (Method e));
      ("Parameters", Parameters_optional e, Parameters e);
      ("ReturnType", false, ReturnType e) ].

(** [TRpcSchema[number]]: the union of the elements of the tuple. *)
Definition schema_union (s : RpcSchema) : TsType :=
  mk_union (map entry_type s).

(** [Parameters?: never] *)
Definition no_params (m : string) (r : TsType) : RpcSchemaEntry :=
  {| Method := m; Parameters_optional := true; Parameters := TNever;
     ReturnType := r |}.

(** [Parameters: p] *)
Definition with_params (m : string) (p r : TsType) : RpcSchemaEntry :=
  {| Method := m; Parameters_optional := false; Parameters := p;
     ReturnType := r |}.

(** [Parameters?: p] *)
Definition optional_params (m : string) (p r : TsType) : RpcSchemaEntry :=
  {| Method := m; Parameters_optional := true; Parameters := p;
     ReturnType := r |}.

(** Two unions the tables write out in full each time:
    [BlockNumber | BlockTag] and [BlockNumber | BlockTag | BlockIdentifier]. *)
Definition BlockNumberOrTag : TsType := TUnion [BlockNumber; BlockTag].
Definition BlockSelector : TsType :=
  TUnion [BlockNumber; BlockTag; BlockIdentifier].

Definition PublicRpcSchema : RpcSchema :=
  [ no_params "web3_clientVersion" TString;
    with_params "web3_sha3" (TTuple [lbl "data" Hash]) TString;
    no_params "net_listening" TBoolean;
    no_params "net_peerCount" Quantity;
    no_params "net_version" Quantity;
    no_params "eth_blockNumber" Quantity;
    with_params "eth_call"
      (TUnion
         [ TTuple [lbl "transaction" (Partial TransactionRequest)];
           TTuple [lbl "transaction" (Partial TransactionRequest);
                   lbl "block" BlockSelector] ])
      Hex;
    no_params "eth_chainId" Quantity;
    no_params "eth_coinbase" Address;
    with_params "eth_estimateGas"
      (TUnion
         [ TTuple [lbl "transaction" TransactionRequest];
           TTuple [lbl "transaction" TransactionRequest;
                   lbl "block" BlockNumberOrTag] ])
      Quantity;
    with_params "eth_feeHistory"
      (TTuple [ lbl "blockCount" Quantity;
                lbl "newestBlock" BlockNumberOrTag;
                lbl "rewardPercentiles"
                  (TUnion [TArray TNumber; TUndefined]) ])
      FeeHistory;
    no_params "eth_gasPrice" Quantity;
    with_params "eth_getBalance"
      (TTuple [lbl "address" Address; lbl "block" BlockSelector])
      Quantity;
    with_params "eth_getBlockByHash"
      (TTuple [lbl "hash" Hash; lbl "includeTransactionObjects" TBoolean])
      (TUnion [Block; TNull]);
    with_params "eth_getBlockByNumber"
      (TTuple [lbl "block" BlockNumberOrTag;
               lbl "includeTransactionObjects" TBoolean])
      (TUnion [Block; TNull]);
    with_params "eth_getBlockTransactionCountByHash"
      (TTuple [lbl "hash" Hash]) Quantity;
    with_params "eth_getBlockTransactionCountByNumber"
      (TTuple [lbl "block" BlockNumberOrTag]) Quantity;
    with_params "eth_getCode"
      (TTuple [lbl "address" Address; lbl "block" BlockSelector]) Hex;
    with_params "eth_getFilterChanges"
      (TTuple [lbl "filterId" Quantity]) (TUnion [TArray Log; TArray Hex]);
    with_params "eth_getFilterLogs"
      (TTuple [lbl "filterId" Quantity]) (TArray Log);
    with_params "eth_getLogs"
      (TTuple
         [ unl
             (TIntersection
                [ TObject
                    [ opt "address" (TUnion [Address; TArray Address]);
                      opt "topics" (TArray LogTopic) ];
                  TUnion
                    [ TObject
                        [ opt "fromBlock" BlockNumberOrTag;
                          opt "toBlock" BlockNumberOrTag;
                          opt "blockHash" TNever ];
                      TObject
                        [ opt "fromBlock" TNever;
                          opt "toBlock" TNever;
                          opt "blockHash" Hash ] ] ]) ])
      (TArray Log);
    with_params "eth_getStorageAt"
      (TTuple [lbl "address" Address; lbl "index" Quantity;
               lbl "block" BlockSelector])
      Hex;
    with_params "eth_getTransactionByBlockHashAndIndex"
      (TTuple [lbl "hash" Hash; lbl "index" Quantity])
      (TUnion [Transaction; TNull]);
    with_params "eth_getTransactionByBlockNumberAndIndex"
      (TTuple [lbl "block" BlockNumberOrTag; lbl "index" Quantity])
      (TUnion [Transaction; TNull]);
    with_params "eth_getTransactionByHash"
      (TTuple [lbl "hash" Hash]) (TUnion [Transaction; TNull]);
    with_params "eth_getTransactionCount"
      (TTuple [lbl "address" Address; lbl "block" BlockSelector])
      Quantity;
    with_params "eth_getTransactionReceipt"
      (TTuple [lbl "hash" Hash]) (TUnion [TransactionReceipt; TNull]);
    with_params "eth_getUncleByBlockHashAndIndex"
      (TTuple [lbl "hash" Hash; lbl "index" Quantity])
      (TUnion [Uncle; TNull]);
    with_params "eth_getUncleByBlockNumberAndIndex"
      (TTuple [lbl "block" BlockNumberOrTag; lbl "index" Quantity])
      (TUnion [Uncle; TNull]);
    with_params "eth_getUncleCountByBlockHash"
      (TTuple [lbl "hash" Hash]) Quantity;
    with_params "eth_getUncleCountByBlockNumber"
      (TTuple [lbl "block" BlockNumberOrTag]) Quantity;
    no_params "eth_newBlockFilter" Quantity;
    with_params "eth_newFilter"
      (TTuple
         [ lbl "filter"
             (TObject
                [ opt "fromBlock" BlockNumberOrTag;
                  opt "toBlock" BlockNumberOrTag;
                  opt "address" (TUnion [Address; TArray Address]);
                  opt "topics" (TArray LogTopic) ]) ])
      Quantity;
    no_params "eth_newPendingTransactionFilter" Quantity;
    no_params "eth_protocolVersion" TString;
    with_params "eth_sendRawTransaction"
      (TTuple [lbl "signedTransaction" Hex]) Hash;
    with_params "eth_uninstallFilter"
      (TTuple [lbl "filterId" Quantity]) TBoolean ].

(** [TestRpcSchema<TMode>].  [TMode] is instantiated at a string literal
    (the mode of the test client), so that the template [`${TMode}_mine`]
    is the literal [TMode ++ "_mine"]. *)
Definition TestRpcSchema (TMode : string) : RpcSchema :=
  [ with_params (TMode ++ "_addCompilationResult") (TArray TAny) TAny;
    with_params (TMode ++ "_dropTransaction") (TTuple [lbl "hash" Hash]) TVoid;
    no_params (TMode ++ "_enableTraces") TVoid;
    with_params (TMode ++ "_impersonateAccount")
      (TTuple [lbl "address" Address]) TVoid;
    no_params (TMode ++ "_getAutomine") TBoolean;
    with_params (TMode ++ "_mine")
      (TTuple [lbl "count" Hex;
               lbl "interval" (TUnion [Hex; TUndefined])])
      TVoid;
    with_params (TMode ++ "_reset") (TArray TAny) TVoid;
    with_params (TMode ++ "_setBalance")
      (TTuple [lbl "address" Address; lbl "balance" Quantity]) TVoid;
    with_params (TMode ++ "_setCode")
      (TTuple [lbl "address" Address; lbl "data" TString]) TVoid;
    with_params (TMode ++ "_setCoinbase")
      (TTuple [lbl "address" Address]) TVoid;
    with_params (TMode ++ "_setLoggingEnabled")
      (TTuple [lbl "enabled" TBoolean]) TVoid;
    with_params (TMode ++ "_setMinGasPrice")
      (TTuple [lbl "gasPrice" Quantity]) TVoid;
    with_params (TMode ++ "_setNextBlockBaseFeePerGas")
      (TTuple [lbl "baseFeePerGas" Quantity]) TVoid;
    with_params (TMode ++ "_setNonce")
      (TTuple [lbl "address" Address; lbl "nonce" Quantity]) TVoid;
    with_params (TMode ++ "_setRpcUrl") (TTuple [lbl "url" TString]) TVoid;
    with_params (TMode ++ "_setStorageAt")
      (TTuple [lbl "address" Address; lbl "index" Quantity;
               lbl "value" Quantity])
      TVoid;
    with_params (TMode ++ "_stopImpersonatingAccount")
      (TTuple [lbl "address" Address]) TVoid;
    with_params (TMode ++ "_increaseTime")
      (TTuple [lbl "seconds" TNumber]) Quantity;
    with_params "evm_setAutomine" (TTuple [unl TBoolean]) TVoid;
    with_params "evm_setBlockGasLimit"
      (TTuple [lbl "gasLimit" Quantity]) TVoid;
    with_params "evm_increaseTime"
      (TTuple [lbl "seconds" Quantity]) Quantity;
    with_params (TMode ++ "_setBlockTimestampInterval")
      (TTuple [lbl "seconds" TNumber]) TVoid;
    no_params (TMode ++ "_removeBlockTimestampInterval") TVoid;
    with_params "evm_setIntervalMining" (TTuple [unl TNumber]) TVoid;
    with_params "evm_setNextBlockTimestamp" (TTuple [unl Quantity]) TVoid;
    no_params "evm_snapshot" Quantity;
    optional_params "evm_revert" (TTuple [lbl "id" Quantity]) TVoid;
    no_params "txpool_content"
      (TObject
         [ req "pending" (Record_ Address (Record_ TString Transaction));
           req "queued" (Record_ Address (Record_ TString Transaction)) ]);
    no_params "txpool_inspect"
      (TObject
         [ req "pending" (Record_ Address (Record_ TString TString));
           req "queued" (Record_ Address (Record_ TString TString)) ]);
    no_params "txpool_status"
      (TObject [req "pending" Quantity; req "queued" Quantity]);
    with_params "eth_sendUnsignedTransaction"
      (TTuple [lbl "transaction" TransactionRequest]) Hash ].

Definition WalletRpcSchema : RpcSchema :=
  [ no_params "eth_accounts" (TArray Address);
    no_params "eth_chainId" Quantity;
    with_params "eth_estimateGas"
      (TUnion
         [ TTuple [lbl "transaction" TransactionRequest];
           TTuple [lbl "transaction" TransactionRequest;
                   lbl "block" BlockNumberOrTag] ])
      Quantity;
    no_params "eth_requestAccounts" (TArray Address);
    with_params "eth_sendTransaction"
      (TTuple [lbl "transaction" TransactionRequest]) Hash;
    with_params "eth_sendRawTransaction"
      (TTuple [lbl "signedTransaction" Hex]) Hash;
    with_params "eth_sign"
      (TTuple [lbl "address" Address; lbl "data" Hex]) Hex;
    with_params "eth_signTransaction"
      (TTuple [lbl "request" TransactionRequest]) Hex;
    with_params "eth_signTypedData_v4"
      (TTuple [lbl "address" Address; lbl "message" TString]) Hex;
    no_params "eth_syncing" (TUnion [NetworkSync; TBoolLit false]);
    with_params "personal_sign"
      (TTuple [lbl "data" Hex; lbl "address" Address]) Hex;
    with_params "wallet_addEthereumChain"
      (TTuple [lbl "chain" AddEthereumChainParameter]) TNull;
    no_params "wallet_getPermissions" (TArray WalletPermission);
    with_params "wallet_requestPermissions"
      (TTuple
         [ lbl "permissions"
             (TObject [req "eth_accounts" (Record_ TString TAny)]) ])
      (TArray WalletPermission);
    with_params "wallet_switchEthereumChain"
      (TTuple [lbl "chain" (TObject [req "chainId" TString])]) TNull;
    with_params "wallet_watchAsset" WatchAssetParams TBoolean ].

(** [EIP1474Methods = [...PublicRpcSchema, ...WalletRpcSchema]], the schema
    of [EIP1193Provider.request]. *)
Definition EIP1474Methods : RpcSchema := PublicRpcSchema ++ WalletRpcSchema.

(* ================================================================== *)
(** * types/eip1193.ts: Utils *)
(* ================================================================== *)

(** Modelled from the spec: [Prettify] is imported from ./utils.js, which is
    not among the sources.  The spec describes a request by its method and
    its params and nothing else, so the wrapper adds no property and removes
    none: the type it returns has the properties of its argument.  It is the
    identity here, and the intersection under it is kept as written. *)
Definition Prettify (t : TsType) : TsType := t.

(** One arm of [EIP1193Parameters<TRpcSchema>], for the element
    [TRpcSchema[K]]:
    [Prettify<{ method: ... } & (... ? { params?: never } : { params: ... })>]. *)
Definition request_arm (TRpcSchema : RpcSchema) (e : RpcSchemaEntry) : TsType :=
  let elem := entry_type e in
  let all := schema_union TRpcSchema in
  Prettify
    (TIntersection
       [ TObject
           [ req "method"
               (cond_extends elem all (index_access elem "Method") TNever) ];
         cond_extends elem all
           (cond_extends (index_access elem "Parameters") TUndefined
              (TObject [opt "params" TNever])
              (TObject [req "params" (index_access elem "Parameters")]))
           TNever ]).

(** [EIP1193Parameters<TRpcSchema>]; [None] is [undefined], the default. *)
Definition EIP1193Parameters (TRpcSchema : option RpcSchema) : TsType :=
  match TRpcSchema with
  | Some s => mk_union (map (request_arm s) s)
  | None => TObject [req "method" TString; opt "params" TUnknown]
  end.

(** [DerivedRpcSchema<TRpcSchema, TRpcSchemaOverrides>] *)
Definition DerivedRpcSchema (TRpcSchema TRpcSchemaOverrides : option RpcSchema)
  : option RpcSchema :=
  match TRpcSchemaOverrides with
  | Some o => Some o
  | None => TRpcSchema
  end.

(** The [_ReturnType] of [EIP1193RequestFn<TRpcSchema>], as a function of
    the schema, the overrides and the type [TParameters] of the argument. *)
Definition EIP1193RequestFn_ReturnType
    (TRpcSchema TRpcSchemaOverrides : option RpcSchema)
    (TParameters : TsType) : TsType :=
  match DerivedRpcSchema TRpcSchema TRpcSchemaOverrides with
  | Some d =>
      index_access
        (Extract (schema_union d)
                 (TObject [req "Method" (index_access TParameters "method")]))
        "ReturnType"
  | None => TUnknown
  end.

(** A function type [(args: A) => R]. *)
Record FunctionType : Type := {
  fn_args : TsType;
  fn_result : TsType
}.

Definition Promise_ (t : TsType) : TsType := TApp "Promise" [t].

(** [EIP1193RequestFn<TRpcSchema>] instantiated at [TRpcSchemaOverrides] and
    [TParameters].  The instantiation exists only if [TParameters] meets its
    constraint, [TParameters extends EIP1193Parameters<DerivedRpcSchema<..>>];
    otherwise the call does not type-check and the answer is [None]. *)
Definition EIP1193RequestFn
    (TRpcSchema TRpcSchemaOverrides : option RpcSchema)
    (TParameters : TsType) : option FunctionType :=
  if assignable TParameters
       (EIP1193Parameters (DerivedRpcSchema TRpcSchema TRpcSchemaOverrides))
  then Some {| fn_args := TParameters;
               fn_result :=
                 Promise_ (EIP1193RequestFn_ReturnType
                             TRpcSchema TRpcSchemaOverrides TParameters) |}
  else None.

(** The type of the argument [{ method: m, params: p }] of a call, and of
    [{ method: m }]. *)
Definition args_type (m : string) (p : TsType) : TsType :=
  TObject [req "method" (TStrLit m); req "params" p].

Definition args_type_no_params (m : string) : TsType :=
  TObject [req "method" (TStrLit m)].

(** [EIP1193Provider['request']]: [EIP1193RequestFn<EIP1474Methods>]. *)
Definition EIP1193Provider_request
    (TRpcSchemaOverrides : option RpcSchema) (TParameters : TsType)
  : option FunctionType :=
  EIP1193RequestFn (Some EIP1474Methods) TRpcSchemaOverrides TParameters.

(** The method names of a schema, in order. *)
Definition methods (s : RpcSchema) : list string := map Method s.

Definition has_method (m : string) (s : RpcSchema) : bool :=
  existsb (String.eqb m) (methods s).

(** The entries of a schema that declare method [m]. *)
Definition entries_of (m : string) (s : RpcSchema) : list RpcSchemaEntry :=
  filter (fun e => String.eqb (Method e) m) s.

(** ** Shapes of [Parameters] *)

(** The numbers of positional values a [Parameters] type admits, when it is
    a tuple or a union of tuples. *)
Definition tuple_arities (t : TsType) : option (list nat) :=
  (fix go (l : list TsType) : option (list nat) :=
     match l with
     | [] => Some []
     | TTuple es :: l' =>
         match go l' with
         | Some ns => Some (List.length es :: ns)
         | None => None
         end
     | _ => None
     end) (members t).

(** An ordered sequence of positional values: a tuple, an array, or a
    union of such. *)
Definition is_sequence (t : TsType) : bool :=
  match members t with
  | [] => false
  | ms =>
      forallb (fun m => match m with
                        | TTuple _ | TArray _ => true
                        | _ => false
                        end) ms
  end.

(** [Parameters?: never]: the entry declares that there are no params. *)
Definition declares_no_params (e : RpcSchemaEntry) : bool :=
  Parameters_optional e &&
  match Parameters e with TNever => true | _ => false end.

(** The types of the elements of a tuple, without their labels, and the
    labels. *)
Definition tuple_types (t : TsType) : list TsType :=
  match t with
  | TTuple es => map snd es
  | _ => []
  end.

Definition tuple_labels (t : TsType) : list (option string) :=
  match t with
  | TTuple es => map fst es
  | _ => []
  end.

(* ================================================================== *)
(** * actions/test/increaseTime.ts *)
(* ================================================================== *)

Section Actions.

(** JavaScript's [number]; the action only hands it to [numberToHex]. *)
Variable number : Type.

(** The state a request runs in and may change: the transport of the
    client and the node behind it. *)
Variable World : Type.

(** What is thrown, and what a rejected promise carries. *)
Variable Error_ : Type.

(** How the evaluation of an expression ends: with a value, or with an
    exception. *)
Inductive Completion (A : Type) : Type :=
| Returns (a : A)
| Throws (e : Error_).

(** [numberToHex] comes from utils/encoding/toHex.js, which is not among
    the sources: it is a parameter.  A call of it returns a hex string or
    throws. *)
Variable numberToHex : number -> Completion string.

(** Values that travel in [params] and come back as results. *)
#[local] Unset Elimination Schemes.
Inductive JsValue : Type :=
| JsUndefined
| JsNull
| JsBoolean (b : bool)
| JsNumber (n : number)
| JsString (s : string)
| JsArray (items : list JsValue)
| JsObject (fields : list (string * JsValue)).
#[local] Set Elimination Schemes.

(** The argument of [client.request]. *)
Record RequestArguments : Type := {
  method : string;
  params : list JsValue
}.

(** A promise settles one way or the other. *)
Inductive Settled (A : Type) : Type :=
| Fulfilled (a : A)
| Rejected (e : Error_).

(** An asynchronous computation: run in a state of the world, it settles
    and leaves a state of the world. *)
Definition Async (A : Type) : Type := World -> Settled A * World.

(** [return a] in an async function. *)
Definition resolve (A : Type) (a : A) : Async A :=
  fun w => (Fulfilled a, w).

(** [await p] followed by the rest of the function: a rejection of [p]
    is thrown, and without a handler it rejects the whole function. *)
Definition await (A B : Type) (p : Async A) (k : A -> Async B) : Async B :=
  fun w =>
    match p w with
    | (Fulfilled a, w') => k a w'
    | (Rejected _ e, w') => (Rejected B e, w')
    end.

(** A synchronous expression inside an async function: its value goes on,
    and an exception it throws rejects the promise of the function, the
    world untouched. *)
Definition evaluate (A : Type) (c : Completion A) : Async A :=
  fun w =>
    match c with
    | Returns a => (Fulfilled a, w)
    | Throws _ e => (Rejected A e, w)
    end.

(** The part of [TestClient] the action uses. *)
Record TestClient : Type := {
  request : RequestArguments -> Async JsValue
}.

Record IncreaseTimeParameters : Type := {
  seconds : number
}.

(** The argument of [client.request] is built first, [numberToHex(seconds)]
    being evaluated then; only after that is the request made. *)
Definition increaseTime (client : TestClient)
    (parameters : IncreaseTimeParameters) : Async JsValue :=
  await (evaluate (numberToHex (seconds parameters)))
    (fun hex =>
       await
         (request client
            {| method := "evm_increaseTime";
               params := [JsString hex] |})
         (fun result => resolve result)).

End Actions.

Arguments Returns {Error_ A} a.
Arguments Throws {Error_} A e.
Arguments JsUndefined {number}.
Arguments JsNull {number}.
Arguments JsBoolean {number} b.
Arguments JsString {number} s.

Arguments Fulfilled {Error_ A} a.
Arguments Rejected {Error_} A e.

(** ** Observing the requests of a client

    [spy c] behaves as [c] and records, in order, every argument its
    [request] is called with: its world is the world of [c] together with
    that record. *)
Definition spy (number World Error_ : Type)
    (c : TestClient number World Error_)
  : TestClient number (World * list (RequestArguments number)) Error_ :=
  {| request := fun args wl =>
       let '(r, w') := request c args (fst wl) in
       (r, (w', snd wl ++ [args])) |}.

(** ** The encoder of utils/encoding/toHex.js *)

(** JavaScript numbers, as far as the encoder tells them apart. *)
Inductive NumberValue : Type :=
| IntegerValued (z : Z)            (* an integer-valued number: -1, 0, 420 *)
| Fractional                   (* a finite number that is no integer: 1.5 *)
| NaN
| Infinite (negative : bool).

(** What the encoder throws. *)
Inductive EncodingError : Type :=
| IntegerOutOfRangeError
| RangeError.                  (* the number cannot be made a BigInt *)

(** [Number.MAX_SAFE_INTEGER] *)
Definition MAX_SAFE_INTEGER : Z := 2 ^ 53 - 1.

(** Modelled from the spec: [numberToHex], of utils/encoding/toHex.js, is
    not among the sources.  The spec has a quantity as a non-negative
    integer written as a minimal-length hexadecimal string, zero being a
    single zero digit, with the [0x] prefix of the wire form; a number that
    is not such an integer, or is too large to stand for one exactly, is
    refused with an exception. *)
Definition numberToHex_model (n : NumberValue)
  : Completion EncodingError string :=
  match n with
  | IntegerValued z =>
      if ((z <? 0) || (MAX_SAFE_INTEGER <? z))%Z
      then Throws _ IntegerOutOfRangeError
      else Returns
             ("0x" ++ HexadecimalString.NilZero.string_of_uint
                        (N.to_hex_uint (Z.to_N z)))%string
  | Fractional | NaN | Infinite _ => Throws _ RangeError
  end.

(** A test client whose node fulfils every request with ["0x0"]; its world
    is the number of requests it has served. *)
Definition counting_client : TestClient NumberValue nat EncodingError :=
  {| request := fun _ served => (Fulfilled (JsString "0x0"), S served) |}.

(* ================================================================== *)
(** * clients/createClient.ts *)
(* ================================================================== *)

Section CreateClient.

(** A chain descriptor and a transport; the client only holds them. *)
Variable Chain : Type.
Variable Transport : Type.

(** The argument of [createClient]: [{ chain?, transport }]. *)
Record ClientConfig : Type := {
  config_chain : option Chain;
  config_transport : Transport
}.

Record Client : Type := {
  chain : option Chain;
  transport : Transport
}.

(** Modelled from the spec: createClient.ts is not among the sources,
    only its type test (createClient.test-d.ts) is.  The spec has a client
    as "an explicit struct owning references to exactly one transport and
    zero-or-one chain descriptor, constructed once". *)
Definition createClient (config : ClientConfig) : Client :=
  {| chain := config_chain config;
     transport := config_transport config |}.

End CreateClient.

(* ================================================================== *)
(** * Method names of the tables *)
(* ================================================================== *)

(** [s] ends with [suf]. *)
Fixpoint is_suffix (suf s : string) : bool :=
  String.eqb suf s ||
  match s with
  | EmptyString => false
  | String _ s' => is_suffix suf s'
  end.

(** A method name as the tables write it: a literal (['evm_snapshot']) or
    the mode followed by a literal ([`${TMode}_mine`]). *)
Inductive MethodTemplate : Type :=
| Literal (name : string)
| ModePrefixed (rest : string).

Definition instantiate (TMode : string) (t : MethodTemplate) : string :=
  match t with
  | Literal name => name
  | ModePrefixed rest => TMode ++ rest
  end.

(** The [Method] column of [TestRpcSchema], as written. *)
Definition TestRpcSchema_methods : list MethodTemplate :=
  [ ModePrefixed "_addCompilationResult";
    ModePrefixed "_dropTransaction";
    ModePrefixed "_enableTraces";
    ModePrefixed "_impersonateAccount";
    ModePrefixed "_getAutomine";
    ModePrefixed "_mine";
    ModePrefixed "_reset";
    ModePrefixed "_setBalance";
    ModePrefixed "_setCode";
    ModePrefixed "_setCoinbase";
    ModePrefixed "_setLoggingEnabled";
    ModePrefixed "_setMinGasPrice";
    ModePrefixed "_setNextBlockBaseFeePerGas";
    ModePrefixed "_setNonce";
    ModePrefixed "_setRpcUrl";
    ModePrefixed "_setStorageAt";
    ModePrefixed "_stopImpersonatingAccount";
    ModePrefixed "_increaseTime";
    Literal "evm_setAutomine";
    Literal "evm_setBlockGasLimit";
    Literal "evm_increaseTime";
    ModePrefixed "_setBlockTimestampInterval";
    ModePrefixed "_removeBlockTimestampInterval";
    Literal "evm_setIntervalMining";
    Literal "evm_setNextBlockTimestamp";
    Literal "evm_snapshot";
    Literal "evm_revert";
    Literal "txpool_content";
    Literal "txpool_inspect";
    Literal "txpool_status";
    Literal "eth_sendUnsignedTransaction" ].

(** Whether two templates can name the same method at some mode: two
    literals or two mode-prefixed names only if they are written the same;
    a literal and a mode-prefixed name only if the literal ends with the
    text after the mode. *)
Definition may_coincide (a b : MethodTemplate) : bool :=
  match a, b with
  | Literal x, Literal y => String.eqb x y
  | ModePrefixed x, ModePrefixed y => String.eqb x y
  | Literal x, ModePrefixed y => is_suffix y x
  | ModePrefixed x, Literal y => is_suffix x y
  end.

(** Whether a template can name, at some mode, one of the given methods. *)
Definition may_name (names : list string) (t : MethodTemplate) : bool :=
  existsb (fun n => may_coincide t (Literal n)) names.

(** The methods that two tables both declare, in the order of the first. *)
Definition shared_methods (s1 s2 : RpcSchema) : list string :=
  filter (fun m => has_method m s2) (methods s1).

Definition entry_eqb (a b : RpcSchemaEntry) : bool :=
  String.eqb (Method a) (Method b)
  && Bool.eqb (Parameters_optional a) (Parameters_optional b)
  && TsType_eqb (Parameters a) (Parameters b)
  && TsType_eqb (ReturnType a) (ReturnType b).

(** Entries of the same name in the two tables are the same entry. *)
Definition shapes_agree (s1 s2 : RpcSchema) : bool :=
  forallb
    (fun e1 =>
       forallb
         (fun e2 => implb (String.eqb (Method e1) (Method e2))
                          (entry_eqb e1 e2))
         s2)
    s1.

(** The [Parameters] of an entry is an ordered sequence of positional
    values; an entry that declares that there are none ([Parameters?:
    never]) counts as the empty sequence. *)
Definition params_is_sequence (e : RpcSchemaEntry) : bool :=
  declares_no_params e || is_sequence (Parameters e).

(** Entries of the same name agree on their [ReturnType]: a check that
    runs on a table. *)
Definition return_types_agree (s : RpcSchema) : bool :=
  forallb
    (fun e =>
       forallb
         (fun e' =>
            implb (String.eqb (Method e') (Method e))
                  (TsType_eqb (ReturnType e') (ReturnType e)))
         s)
    s.

(** The same check on the test table as written, for all modes at once. *)
Definition test_return_types_agree : bool :=
  let rows := combine TestRpcSchema_methods
                (map ReturnType (TestRpcSchema "")) in
  forallb
    (fun r =>
       forallb
         (fun r' => implb (may_coincide (fst r') (fst r))
                          (TsType_eqb (snd r') (snd r)))
         rows)
    rows.

(** Object types and intersections: the types that are neither unions nor
    [never], [any] or [unknown], so that a union keeps them as they are. *)
Definition record_like (t : TsType) : Prop :=
  match t with
  | TObject _ | TIntersection _ => True
  | _ => False
  end.

(** How one required-or-optional target property is checked against the
    properties of the source object. *)
Definition prop_assignable (ps : list Property) (q : Property) : bool :=
  let '(k, optq, tq) := q in
  match lookup_prop k ps with
  | None => optq
  | Some (optp, tp) =>
      if optq then assignable tp (mk_union [tq; TUndefined])
      else negb optp && assignable tp tq
  end.

(* ================================================================== *)
(** * types/eip1193.ts: errors and provider events *)
(* ================================================================== *)

(** [ProviderConnectInfo] and [ProviderMessage]. *)
Definition ProviderConnectInfo : TsType :=
  TObject [req "chainId" TString].

Definition ProviderMessage : TsType :=
  TObject [req "type" TString; req "data" TUnknown].

(** The instance type of the class [ProviderRpcError extends Error]: what
    [Error] has, and the two fields the class declares. *)
Definition ProviderRpcError : TsType :=
  TIntersection
    [TRef "Error"; TObject [req "code" TNumber; req "details" TString]].

(** One overload of [on] or of [removeListener]: the event it is for and
    the type of the listener it takes. *)
Record EventOverload : Type := {
  event : string;
  listener : FunctionType
}.

(** [(name: t) => void] *)
Definition listener_of (name : string) (t : TsType) : FunctionType :=
  {| fn_args := TTuple [lbl name t]; fn_result := TVoid |}.

(** The overloads of [EIP1193Events.on], in order. *)
Definition EIP1193Events_on : list EventOverload :=
  [ {| event := "connect";
       listener := listener_of "connectInfo" ProviderConnectInfo |};
    {| event := "disconnect";
       listener := listener_of "error" ProviderRpcError |};
    {| event := "chainChanged";
       listener := listener_of "chainId" TString |};
    {| event := "accountsChanged";
       listener := listener_of "accounts" (TArray TString) |};
    {| event := "message";
       listener := listener_of "message" ProviderMessage |} ].

(** The overloads of [EIP1193Events.removeListener], in order. *)
Definition EIP1193Events_removeListener : list EventOverload :=
  [ {| event := "connect";
       listener := listener_of "connectInfo" ProviderConnectInfo |};
    {| event := "disconnect";
       listener := listener_of "error" ProviderRpcError |};
    {| event := "chainChanged";
       listener := listener_of "chainId" TString |};
    {| event := "accountsChanged";
       listener := listener_of "accounts" (TArray Address) |};
    {| event := "message";
       listener := listener_of "message" ProviderMessage |} ].

(** The listener type an overload list gives for an event: that of the
    first overload for it. *)
Fixpoint listener_for (ev : string) (l : list EventOverload)
  : option FunctionType :=
  match l with
  | [] => None
  | o :: l' =>
      if String.eqb ev (event o) then Some (listener o)
      else listener_for ev l'
  end.

(* ================================================================== *)
(** * Calls of the request function *)
(* ================================================================== *)

(** The type of the argument of a call: [{ method: m, params: p }], or
    [{ method: m }] when the call has no [params] property. *)
Definition call_args (m : string) (p : option TsType) : TsType :=
  match p with
  | Some p => args_type m p
  | None => args_type_no_params m
  end.

(** Whether the params of a call fit an arm whose entry has
    [TRpcSchema[K]['Parameters'] = declared]: the arm is
    [{ params?: never }] when [declared extends undefined], and
    [{ params: declared }] otherwise; for [any] it is the union of both. *)
Definition params_accepted (declared : TsType) (p : option TsType) : bool :=
  match declared with
  | TAny => true
  | _ =>
      if assignable declared TUndefined
      then match p with
           | None => true
           | Some p => assignable p TUndefined
           end
      else match p with
           | None => false
           | Some p => assignable p declared
           end
  end.

(** Whether the arm of entry [e] of schema [s] accepts the call. *)
Definition entry_accepts (s : RpcSchema) (m : string) (p : option TsType)
    (e : RpcSchemaEntry) : bool :=
  String.eqb (Method e) m
  && assignable (entry_type e) (schema_union s)
  && params_accepted (index_access (entry_type e) "Parameters") p.

(** No string occurs twice. *)
Fixpoint nodupb (l : list string) : bool :=
  match l with
  | [] => true
  | x :: l' => negb (existsb (String.eqb x) l') && nodupb l'
  end.

Definition MethodTemplate_eqb (a b : MethodTemplate) : bool :=
  match a, b with
  | Literal x, Literal y => String.eqb x y
  | ModePrefixed x, ModePrefixed y => String.eqb x y
  | _, _ => false
  end.

(** The two ways [increaseTime] is written in the test table. *)
Definition is_increaseTime_pair (a b : MethodTemplate) : bool :=
  match a, b with
  | Literal x, ModePrefixed y | ModePrefixed y, Literal x =>
      String.eqb x "evm_increaseTime" && String.eqb y "_increaseTime"
  | _, _ => false
  end.

(** The rows of the test table as written: the template of the method
    name beside the entry at the empty mode, which carries the rest. *)
Definition TestRpcSchema_rows : list (MethodTemplate * RpcSchemaEntry) :=
  combine TestRpcSchema_methods (TestRpcSchema "").

(** What an entry declares besides its name. *)
Definition shape (e : RpcSchemaEntry) : bool * TsType * TsType :=
  (Parameters_optional e, Parameters e, ReturnType e).

Definition bool_to_nat (b : bool) : nat := if b then 1 else 0.

(* ================================================================== *)
(** * Properties *)
(* ================================================================== *)

(** ** Type identity is decided by [TsType_eqb] *)

Lemma option_string_eqb_eq (a b : option string) :
  option_string_eqb a b = true <-> a = b.
Proof.
  destruct a as [x|], b as [y|]; simpl; try (split; congruence).
  rewrite String.eqb_eq. split; congruence.
Qed.

Lemma TsType_list_eqb_eq (l : list TsType) :
  Forall (fun a => forall b, TsType_eqb a b = true <-> a = b) l ->
  forall l',
    (fix go (l1 l2 : list TsType) {struct l1} : bool :=
       match l1, l2 with
       | [], [] => true
       | x :: l1', y :: l2' => TsType_eqb x y && go l1' l2'
       | _, _ => false
       end) l l' = true <-> l = l'.
Proof.
  induction 1 as [|x l Hx _ IH]; intros [|y l']; try (split; congruence).
  rewrite andb_true_iff, Hx, IH. split.
  - intros [-> ->]; reflexivity.
  - intros E; injection E; auto.
Qed.

Theorem TsType_eqb_eq (a b : TsType) : TsType_eqb a b = true <-> a = b.
Proof.
  revert b. induction a using TsType_nested_ind; intros u;
    try (destruct u; simpl; split; congruence).
  - destruct u; simpl; try (split; congruence).
    rewrite String.eqb_eq. split; congruence.
  - destruct u as [| | | | | | | | | |b'| | | | | | | |]; simpl;
      try (split; congruence).
    rewrite Bool.eqb_true_iff. split; congruence.
  - destruct u; simpl; try (split; congruence).
    rewrite String.eqb_eq. split; congruence.
  - destruct u; simpl; try (split; congruence).
    rewrite String.eqb_eq. split; congruence.
  - destruct u as [| | | | | | | | | | | | |n' args'| | | | |]; simpl;
      try (split; congruence).
    rewrite andb_true_iff, String.eqb_eq, (TsType_list_eqb_eq H).
    split; [intros [-> ->]; reflexivity | intros E; injection E; auto].
  - destruct u; simpl; try (split; congruence).
    rewrite IHa. split; congruence.
  - destruct u as [| | | | | | | | | | | | | | |elems'| | |]; simpl;
      try (split; congruence).
    enough (E : forall l',
      (fix go (l1 l2 : list (option string * TsType)) {struct l1} : bool :=
         match l1, l2 with
         | [], [] => true
         | (n1, x) :: l1', (n2, y) :: l2' =>
             option_string_eqb n1 n2 && TsType_eqb x y && go l1' l2'
         | _, _ => false
         end) elems l' = true <-> elems = l').
    { rewrite E. split; congruence. }
    induction H as [|[n1 x] l Hx _ IH]; intros [|[n2 y] l'];
      try (split; congruence).
    simpl in Hx.
    rewrite !andb_true_iff, option_string_eqb_eq, Hx, IH. split.
    + intros [[-> ->] ->]; reflexivity.
    + intros E; injection E; auto.
  - destruct u as [| | | | | | | | | | | | | | | |props'| |]; simpl;
      try (split; congruence).
    enough (E : forall l',
      (fix go (l1 l2 : list Property) {struct l1} : bool :=
         match l1, l2 with
         | [], [] => true
         | (k1, o1, x) :: l1', (k2, o2, y) :: l2' =>
             String.eqb k1 k2 && Bool.eqb o1 o2 && TsType_eqb x y
             && go l1' l2'
         | _, _ => false
         end) props l' = true <-> props = l').
    { rewrite E. split; congruence. }
    induction H as [|[[k1 o1] x] l Hx _ IH]; intros [|[[k2 o2] y] l'];
      try easy.
    simpl in Hx.
    rewrite !andb_true_iff, String.eqb_eq, Bool.eqb_true_iff, Hx, IH. split.
    + intros [[[-> ->] ->] ->]; reflexivity.
    + intros E; injection E; auto.
  - destruct u as [| | | | | | | | | | | | | | | | |ms'|]; simpl;
      try (split; congruence).
    rewrite (TsType_list_eqb_eq H). split; congruence.
  - destruct u as [| | | | | | | | | | | | | | | | | |ms']; simpl;
      try (split; congruence).
    rewrite (TsType_list_eqb_eq H). split; congruence.
Qed.

Lemma TsType_eqb_refl (a : TsType) : TsType_eqb a a = true.
Proof. apply TsType_eqb_eq. reflexivity. Qed.



(** ** Unions: what [dedupe] and [mk_union] keep *)

Lemma existsb_TsType_eqb (x : TsType) (l : list TsType) :
  existsb (TsType_eqb x) l = true <-> In x l.
Proof.
  rewrite existsb_exists. split.
  - intros [y [Hy E]]. apply TsType_eqb_eq in E. now subst.
  - intros H. exists x. split; [assumption | apply TsType_eqb_refl].
Qed.

Lemma In_dedupe_from (x : TsType) (l seen : list TsType) :
  In x (dedupe_from seen l) <-> In x l /\ ~ In x seen.
Proof.
  revert seen. induction l as [|y l IH]; intros seen; simpl.
  - tauto.
  - destruct (existsb (TsType_eqb y) seen) eqn:E.
    + apply existsb_TsType_eqb in E. rewrite IH. split.
      * intros [H1 H2]. auto.
      * intros [[->|H1] H2]; [contradiction | auto].
    + assert (Hy : ~ In y seen).
      { rewrite <- existsb_TsType_eqb, E. discriminate. }
      simpl. rewrite IH. simpl. split.
      * intros [->|[H1 H2]]; [auto | tauto].
      * intros [[->|H1] H2]; [auto |].
        destruct (TsType_eqb y x) eqn:Eyx.
        -- apply TsType_eqb_eq in Eyx. auto.
        -- right. split; [assumption |].
           intros [->|H3]; [| contradiction].
           rewrite TsType_eqb_refl in Eyx. discriminate.
Qed.

Lemma In_dedupe (x : TsType) (l : list TsType) :
  In x (dedupe l) <-> In x l.
Proof. unfold dedupe. rewrite In_dedupe_from. simpl. tauto. Qed.

Lemma dedupe_from_all_seen (seen l : list TsType) :
  (forall x, In x l -> In x seen) -> dedupe_from seen l = [].
Proof.
  induction l as [|y l IH]; intros H; simpl; [reflexivity |].
  assert (E : existsb (TsType_eqb y) seen = true).
  { apply existsb_TsType_eqb, H. now left. }
  rewrite E. apply IH. intros x Hx. apply H. now right.
Qed.

Lemma dedupe_all_same (r : TsType) (l : list TsType) :
  l <> [] -> (forall x, In x l -> x = r) -> dedupe l = [r].
Proof.
  destruct l as [|y l]; [congruence |]. intros _ H.
  assert (y = r) by (apply H; now left). subst y.
  unfold dedupe. simpl. f_equal. apply dedupe_from_all_seen.
  intros x Hx. left. symmetry. apply H. now right.
Qed.

(** A union all of whose constituents are the type [r] is [r]. *)
Lemma mk_union_all_same (r : TsType) (l : list TsType) :
  l <> [] -> (forall x, In x l -> x = r) -> mk_union l = r.
Proof.
  intros Hne H. unfold mk_union. now rewrite (dedupe_all_same Hne H).
Qed.

Lemma record_like_members (t : TsType) : record_like t -> members t = [t].
Proof. destruct t; simpl; tauto. Qed.

Lemma flat_map_members_records (l : list TsType) :
  (forall x, In x l -> record_like x) -> flat_map members l = l.
Proof.
  induction l as [|y l IH]; intros H; simpl; [reflexivity |].
  rewrite (record_like_members y) by (apply H; now left).
  simpl. f_equal. apply IH. intros x Hx. apply H. now right.
Qed.

Lemma records_not_top (l : list TsType) :
  (forall x, In x l -> record_like x) ->
  existsb is_any l = false /\ existsb is_unknown l = false.
Proof.
  induction l as [|y l IH]; intros H; simpl; [auto |].
  destruct IH as [-> ->]; [intros x Hx; apply H; now right |].
  assert (Hy : record_like y) by (apply H; now left).
  destruct y; simpl in Hy; try contradiction; auto.
Qed.

(** The members of a union of object types are those object types. *)
Lemma members_mk_union_records (l : list TsType) :
  (forall x, In x l -> record_like x) ->
  forall x, In x (members (mk_union l)) <-> In x l.
Proof.
  intros H x. unfold mk_union.
  assert (Hd : forall y, In y (dedupe l) -> record_like y).
  { intros y Hy. apply H. now apply In_dedupe. }
  rewrite <- (In_dedupe x l).
  destruct (dedupe l) as [|a [|b d]] eqn:Ed.
  - simpl. tauto.
  - rewrite record_like_members by (apply Hd; now left). tauto.
  - rewrite (flat_map_members_records _ Hd).
    set (flat := dedupe (a :: b :: d)).
    assert (Hf : forall y, In y flat -> record_like y).
    { intros y Hy. apply Hd. now apply In_dedupe. }
    destruct (records_not_top _ Hf) as [-> ->].
    rewrite <- (In_dedupe x (a :: b :: d)). fold flat.
    destruct flat as [|a' [|b' d']].
    + simpl. tauto.
    + rewrite record_like_members by (apply Hf; now left). tauto.
    + simpl. tauto.
Qed.

(** The union of object types is [never], one of them, or a union whose
    members are among them. *)
Lemma mk_union_records_cases (l : list TsType) :
  (forall x, In x l -> record_like x) ->
  mk_union l = TNever \/
  (exists x, In x l /\ mk_union l = x) \/
  (exists ms, mk_union l = TUnion ms /\ forall x, In x ms -> In x l).
Proof.
  intros H.
  pose proof (members_mk_union_records l H) as Hm.
  destruct (mk_union l) eqn:E; auto;
    try (right; left; eexists; split;
         [apply Hm; simpl; left; reflexivity | reflexivity]).
  right; right. exists members0. split; [reflexivity |].
  intros x Hx. apply Hm. exact Hx.
Qed.

(** ** Assignability to object types *)

Lemma assignable_object_object (ps qs : list Property) :
  assignable (TObject ps) (TObject qs) = forallb (prop_assignable ps) qs.
Proof.
  simpl. induction qs as [|[[k optq] tq] qs IH]; simpl; [reflexivity |].
  rewrite IH. f_equal. clear IH. unfold prop_assignable.
  induction ps as [|[[k' optp] tp] ps IHps]; simpl; [reflexivity |].
  destruct (String.eqb k k'); [reflexivity | apply IHps].
Qed.

Lemma assignable_object_union (ps : list Property) (ts : list TsType) :
  assignable (TObject ps) (TUnion ts) = existsb (assignable (TObject ps)) ts.
Proof. reflexivity. Qed.

Lemma assignable_object_intersection (ps : list Property) (ts : list TsType) :
  assignable (TObject ps) (TIntersection ts)
  = forallb (assignable (TObject ps)) ts.
Proof. reflexivity. Qed.

Lemma assignable_object_never (ps : list Property) :
  assignable (TObject ps) TNever = false.
Proof. reflexivity. Qed.

(** Everything is assignable to [unknown]. *)
Lemma assignable_unknown (s : TsType) : assignable s TUnknown = true.
Proof.
  induction s using TsType_nested_ind; try reflexivity.
  simpl. apply forallb_forall. intros x Hx.
  rewrite Forall_forall in H. exact (H x Hx).
Qed.

(** A string literal is assignable to a string literal only if they are the
    same, and never to [never]. *)
Lemma assignable_strlit (a b : string) :
  assignable (TStrLit a) (TStrLit b) = String.eqb a b.
Proof. reflexivity. Qed.

(** ** Entries as object types *)

Lemma index_access_entry_Method (e : RpcSchemaEntry) :
  index_access (entry_type e) "Method" = TStrLit (Method e).
Proof. reflexivity. Qed.

(** [TRpcSchema[K] extends { Method: 'm' }] compares the method names. *)
Lemma entry_extends_Method (e : RpcSchemaEntry) (m : string) :
  assignable (entry_type e) (TObject [req "Method" (TStrLit m)])
  = String.eqb (Method e) m.
Proof.
  unfold entry_type. rewrite assignable_object_object. simpl.
  apply andb_true_r.
Qed.

Lemma In_schema_union (s : RpcSchema) (x : TsType) :
  In x (members (schema_union s)) <-> exists e, In e s /\ x = entry_type e.
Proof.
  unfold schema_union. rewrite members_mk_union_records.
  - rewrite in_map_iff. split; intros [e [H1 H2]]; exists e; auto.
  - intros y Hy. apply in_map_iff in Hy. destruct Hy as [e [<- _]]. exact I.
Qed.

(** [Extract<TRpcSchema[number], { Method: 'm' }>] keeps the entries that
    declare method [m], and only them. *)
Lemma In_Extract_schema (s : RpcSchema) (m : string) (x : TsType) :
  In x (members (Extract (schema_union s) (TObject [req "Method" (TStrLit m)])))
  <-> exists e, In e s /\ Method e = m /\ x = entry_type e.
Proof.
  unfold Extract. rewrite members_mk_union_records.
  - rewrite filter_In, In_schema_union. split.
    + intros [[e [He ->]] Ha]. rewrite entry_extends_Method in Ha.
      apply String.eqb_eq in Ha. exists e. auto.
    + intros [e [He [Hm ->]]]. split; [exists e; auto |].
      rewrite entry_extends_Method. now apply String.eqb_eq.
  - intros y Hy. apply filter_In in Hy. destruct Hy as [Hy _].
    apply In_schema_union in Hy. destruct Hy as [e [_ ->]]. exact I.
Qed.

(* ------------------------------------------------------------------ *)
(** ** The result type of the request function *)

(** C2: For a method name that appears in the RPC schema the request
    function resolves against (the schema given, or the overrides that
    replace it), the declared result type [_ReturnType] is exactly the
    [ReturnType] of the schema entry whose [Method] is that name: [Extract]
    narrows the union of all entries to the entries that carry the method
    tag of the argument, a single arm when the entry of that name is one
    entry (listed once or several times), and the indexed access reads its
    [ReturnType].  "The entry whose Method equals that name" is read as:
    every entry of that name declares this [ReturnType]. *)
Theorem request_fn_return_type_is_entry_return_type
    (TRpcSchema TRpcSchemaOverrides : option RpcSchema)
    (schema : RpcSchema) (e : RpcSchemaEntry) (TParameters : TsType) :
  DerivedRpcSchema TRpcSchema TRpcSchemaOverrides = Some schema ->
  In e schema ->
  (forall e', In e' schema -> Method e' = Method e ->
              ReturnType e' = ReturnType e) ->
  index_access TParameters "method" = TStrLit (Method e) ->
  let arms :=
    Extract (schema_union schema)
      (TObject [req "Method" (index_access TParameters "method")]) in
  EIP1193RequestFn_ReturnType TRpcSchema TRpcSchemaOverrides TParameters
    = ReturnType e
  /\ (forall x,
        In x (members arms)
        <-> exists e', In e' schema /\ Method e' = Method e
                       /\ x = entry_type e')
  /\ ((forall e', In e' schema -> Method e' = Method e -> e' = e) ->
      arms = entry_type e).
Proof.
  intros Hd He Hsame Hm arms. unfold EIP1193RequestFn_ReturnType.
  subst arms. rewrite Hd, Hm.
  set (arms := Extract (schema_union schema)
                 (TObject [req "Method" (TStrLit (Method e))])).
  assert (Harms : forall x, In x (members arms) <->
                    exists e', In e' schema /\ Method e' = Method e
                               /\ x = entry_type e').
  { intros x. apply In_Extract_schema. }
  assert (Hin : In (entry_type e) (members arms)).
  { apply Harms. exists e. auto. }
  split; [| split; [exact Harms |]].
  - unfold index_access. apply mk_union_all_same.
    + destruct (members arms); [contradiction | discriminate].
    + intros y Hy. apply in_map_iff in Hy. destruct Hy as [x [<- Hx]].
      apply Harms in Hx. destruct Hx as [e' [He' [Hm' ->]]]. simpl.
      now apply Hsame.
  - intros Hone. subst arms. unfold Extract.
    set (kept := filter
                   (fun m => assignable m
                               (TObject [req "Method" (TStrLit (Method e))]))
                   (members (schema_union schema))).
    assert (Hk : forall x, In x kept <->
                   exists e', In e' schema /\ Method e' = Method e
                              /\ x = entry_type e').
    { intros x. unfold kept. rewrite filter_In, In_schema_union. split.
      - intros [[e' [He' ->]] Ha]. rewrite entry_extends_Method in Ha.
        apply String.eqb_eq in Ha. exists e'. auto.
      - intros [e' [He' [Hm' ->]]]. split; [exists e'; auto |].
        rewrite entry_extends_Method. now apply String.eqb_eq. }
    apply mk_union_all_same.
    + assert (Hke : In (entry_type e) kept) by (apply Hk; exists e; auto).
      destruct kept; [contradiction | discriminate].
    + intros x Hx. apply Hk in Hx. destruct Hx as [e' [He' [Hm' ->]]].
      f_equal. now apply Hone.
Qed.

(** The argument type [{ method: m }] and [{ method: m, params: p }] have
    the method tag [m]. *)
Lemma index_access_args_type (m : string) (p : TsType) :
  index_access (args_type m p) "method" = TStrLit m.
Proof. reflexivity. Qed.

Lemma index_access_args_type_no_params (m : string) :
  index_access (args_type_no_params m) "method" = TStrLit m.
Proof. reflexivity. Qed.

Lemma return_types_agree_sound (s : RpcSchema) :
  return_types_agree s = true ->
  forall e e', In e s -> In e' s -> Method e' = Method e ->
               ReturnType e' = ReturnType e.
Proof.
  unfold return_types_agree. intros H e e' He He' Hm.
  rewrite forallb_forall in H. specialize (H e He).
  rewrite forallb_forall in H. specialize (H e' He').
  apply String.eqb_eq in Hm. rewrite Hm in H. simpl in H.
  now apply TsType_eqb_eq.
Qed.

(** The schema of the provider, with its three methods listed twice, and
    its two halves satisfy the reading of C2. *)
Lemma EIP1474Methods_return_types_agree :
  return_types_agree EIP1474Methods = true
  /\ return_types_agree PublicRpcSchema = true
  /\ return_types_agree WalletRpcSchema = true.
Proof. repeat split; vm_compute; reflexivity. Qed.

Lemma request_fn_return_type_witness :
  EIP1193RequestFn_ReturnType (Some EIP1474Methods) None
    (args_type_no_params "eth_chainId") = Quantity.
Proof.
  refine (proj1 (@request_fn_return_type_is_entry_return_type
                   (Some EIP1474Methods) None EIP1474Methods
                   (no_params "eth_chainId" Quantity)
                   (args_type_no_params "eth_chainId") _ _ _ _)).
  - reflexivity.
  - simpl. tauto.
  - intros e' He' Hm.
    eapply return_types_agree_sound;
      [exact (proj1 EIP1474Methods_return_types_agree)
      | simpl; tauto | exact He' | exact Hm].
  - reflexivity.
Defined.

(* ------------------------------------------------------------------ *)
(** ** Methods outside the schema *)

Lemma has_method_false (m : string) (s : RpcSchema) :
  has_method m s = false -> forall e, In e s -> Method e <> m.
Proof.
  unfold has_method, methods. intros H e He Hm.
  assert (E : existsb (String.eqb m) (map Method s) = true).
  { apply existsb_exists. exists (Method e). split.
    - now apply in_map.
    - apply String.eqb_eq. now symmetry. }
  congruence.
Qed.

Lemma has_method_true (m : string) (s : RpcSchema) :
  has_method m s = true <-> In m (methods s).
Proof.
  unfold has_method. rewrite existsb_exists. split.
  - intros [x [Hx E]]. apply String.eqb_eq in E. now subst.
  - intros H. exists m. split; [assumption | apply String.eqb_refl].
Qed.

Lemma filter_none (A : Type) (f : A -> bool) (l : list A) :
  (forall x, In x l -> f x = false) -> filter f l = [].
Proof.
  induction l as [|y l IH]; intros H; simpl; [reflexivity |].
  rewrite (H y) by now left. apply IH. intros x Hx. apply H. now right.
Qed.

Lemma existsb_none (A : Type) (f : A -> bool) (l : list A) :
  (forall x, In x l -> f x = false) -> existsb f l = false.
Proof.
  induction l as [|y l IH]; intros H; simpl; [reflexivity |].
  rewrite (H y) by now left. apply IH. intros x Hx. apply H. now right.
Qed.

Lemma index_access_object_method (props : list Property) (t : TsType) :
  lookup_prop "method" props = Some (false, t) ->
  index_access (TObject props) "method" = t.
Proof.
  intros H. unfold index_access. simpl. rewrite H. reflexivity.
Qed.

Lemma cond_extends_object (ps : list Property) (t a b : TsType) :
  cond_extends (TObject ps) t a b
  = if assignable (TObject ps) t then a else b.
Proof. reflexivity. Qed.

(** An argument whose method tag is ['m'] does not fit the arm of an entry
    that declares another method. *)
Lemma request_arm_rejects (s : RpcSchema) (e : RpcSchemaEntry)
    (props : list Property) (m : string) :
  lookup_prop "method" props = Some (false, TStrLit m) ->
  Method e <> m ->
  assignable (TObject props) (request_arm s e) = false.
Proof.
  intros Hl Hm. unfold request_arm, Prettify.
  rewrite assignable_object_intersection. cbn [forallb].
  rewrite assignable_object_object. cbn [forallb].
  unfold prop_assignable, req. rewrite Hl.
  rewrite index_access_entry_Method.
  assert (E : assignable (TStrLit m)
                (cond_extends (entry_type e) (schema_union s)
                   (TStrLit (Method e)) TNever) = false).
  { unfold entry_type. rewrite cond_extends_object.
    destruct (assignable _ (schema_union s)); [| reflexivity].
    rewrite assignable_strlit. apply String.eqb_neq. congruence. }
  rewrite E. reflexivity.
Qed.

Lemma schema_rejects_unknown_method (s : RpcSchema)
    (props : list Property) (m : string) :
  lookup_prop "method" props = Some (false, TStrLit m) ->
  has_method m s = false ->
  assignable (TObject props) (EIP1193Parameters (Some s)) = false.
Proof.
  intros Hl Hm. unfold EIP1193Parameters.
  assert (Harm : forall x, In x (map (request_arm s) s) ->
                   assignable (TObject props) x = false).
  { intros x Hx. apply in_map_iff in Hx. destruct Hx as [e [<- He]].
    apply request_arm_rejects with (m := m); [assumption |].
    now apply (@has_method_false m s). }
  destruct (mk_union_records_cases (map (request_arm s) s))
    as [E | [[x [Hx E]] | [ms [E Hms]]]].
  - intros x Hx. apply in_map_iff in Hx. destruct Hx as [e [<- _]]. exact I.
  - rewrite E. reflexivity.
  - rewrite E. now apply Harm.
  - rewrite E, assignable_object_union. apply existsb_none.
    intros x Hx. apply Harm, Hms, Hx.
Qed.

Lemma extract_unknown_method (s : RpcSchema) (m : string) :
  has_method m s = false ->
  Extract (schema_union s) (TObject [req "Method" (TStrLit m)]) = TNever.
Proof.
  intros Hm. unfold Extract. rewrite filter_none; [reflexivity |].
  intros x Hx. apply In_schema_union in Hx. destruct Hx as [e [He ->]].
  rewrite entry_extends_Method. apply String.eqb_neq.
  now apply (@has_method_false m s).
Qed.

(** C3 (as amended): Without a schema (no [TRpcSchema] and no overrides)
    the request function accepts any method name with any params, or with
    none, and its result type is [unknown].  With a schema, a method outside
    the table is not passed through: the argument does not meet the
    constraint [EIP1193Parameters<...>], so the call does not type-check,
    and [Extract] finds no entry, so [_ReturnType] is [never], not
    [unknown]. *)
Theorem request_fn_unknown_methods :
  (forall m p,
      EIP1193RequestFn None None (args_type m p)
      = Some {| fn_args := args_type m p; fn_result := Promise_ TUnknown |})
  /\ (forall m,
      EIP1193RequestFn None None (args_type_no_params m)
      = Some {| fn_args := args_type_no_params m;
                fn_result := Promise_ TUnknown |})
  /\ (forall TRpcSchema TRpcSchemaOverrides schema props m,
      DerivedRpcSchema TRpcSchema TRpcSchemaOverrides = Some schema ->
      lookup_prop "method" props = Some (false, TStrLit m) ->
      has_method m schema = false ->
      EIP1193RequestFn TRpcSchema TRpcSchemaOverrides (TObject props) = None
      /\ EIP1193RequestFn_ReturnType TRpcSchema TRpcSchemaOverrides
           (TObject props) = TNever).
Proof.
  split; [| split].
  - intros m p. unfold EIP1193RequestFn, args_type. simpl DerivedRpcSchema.
    simpl EIP1193Parameters. rewrite assignable_object_object.
    simpl. rewrite assignable_unknown. reflexivity.
  - intros m. reflexivity.
  - intros S O schema props m Hd Hl Hm. split.
    + unfold EIP1193RequestFn. rewrite Hd.
      now rewrite (@schema_rejects_unknown_method schema props m Hl Hm).
    + unfold EIP1193RequestFn_ReturnType. rewrite Hd.
      rewrite (@index_access_object_method props _ Hl).
      now rewrite (@extract_unknown_method schema m Hm).
Qed.

Lemma request_fn_unknown_methods_witness :
  EIP1193RequestFn (Some EIP1474Methods) None
    (args_type "debug_traceTransaction" (TArray TUnknown)) = None
  /\ EIP1193RequestFn_ReturnType (Some EIP1474Methods) None
       (args_type "debug_traceTransaction" (TArray TUnknown)) = TNever.
Proof.
  apply (proj2 (proj2 request_fn_unknown_methods)
           (Some EIP1474Methods) None EIP1474Methods
           [req "method" (TStrLit "debug_traceTransaction");
            req "params" (TArray TUnknown)]
           "debug_traceTransaction");
    reflexivity.
Defined.

(** C3, as stated, fails on the schema of the provider: the method
    [debug_traceTransaction] is outside the table, and a call with it is
    neither accepted nor given the result type [unknown]. *)
Lemma unknown_method_with_schema_not_passed_through :
  has_method "debug_traceTransaction" EIP1474Methods = false
  /\ EIP1193Provider_request None
       (args_type "debug_traceTransaction" (TArray TUnknown))
     <> Some {| fn_args := args_type "debug_traceTransaction" (TArray TUnknown);
                fn_result := Promise_ TUnknown |}
  /\ EIP1193RequestFn_ReturnType (Some EIP1474Methods) None
       (args_type "debug_traceTransaction" (TArray TUnknown)) <> TUnknown.
Proof.
  split; [reflexivity |]. split.
  - vm_compute. discriminate.
  - vm_compute. discriminate.
Qed.

(* ------------------------------------------------------------------ *)
(** ** increaseTime *)

(** C1 (as amended): For every test client and every [seconds] that
    [numberToHex] encodes, [increaseTime] is a pass-through: run in any
    state of the world it settles exactly as [client.request] does on the
    argument whose method is ['evm_increaseTime'] and whose params are the
    one-element list [[numberToHex(seconds)]], and it leaves the world
    that request leaves; on a client that records its requests, the record
    after the action is that single request (no second call, no retry),
    and the settled value is the one the request gave, not decoded.  For a
    [seconds] at which [numberToHex] throws, the argument is never built:
    the action rejects with what was thrown, sends no request and leaves
    the world as it was. *)
Theorem increaseTime_passes_through_or_rejects
    (number World Error_ : Type)
    (numberToHex : number -> Completion Error_ string)
    (client : TestClient number World Error_)
    (parameters : IncreaseTimeParameters number) (w : World) :
  match numberToHex (seconds parameters) with
  | Returns hex =>
      let args :=
        {| method := "evm_increaseTime"; params := [JsString hex] |} in
      increaseTime numberToHex client parameters w = request client args w
      /\ List.length (params args) = 1
      /\ snd (snd (increaseTime numberToHex (spy client) parameters (w, [])))
         = [args]
      /\ fst (increaseTime numberToHex (spy client) parameters (w, []))
         = fst (request client args w)
      /\ fst (snd (increaseTime numberToHex (spy client) parameters (w, [])))
         = snd (request client args w)
  | Throws _ e =>
      increaseTime numberToHex client parameters w = (Rejected _ e, w)
      /\ increaseTime numberToHex (spy client) parameters (w, [])
         = (Rejected _ e, (w, []))
  end.
Proof.
  assert (E : forall W (c : TestClient number W Error_) (x : W),
             increaseTime numberToHex c parameters x
             = match numberToHex (seconds parameters) with
               | Returns hex =>
                   request c
                     {| method := "evm_increaseTime";
                        params := [JsString hex] |} x
               | Throws _ e => (Rejected _ e, x)
               end).
  { intros W c x. unfold increaseTime, await, evaluate, resolve.
    destruct (numberToHex (seconds parameters)) as [hex | e];
      [| reflexivity].
    destruct (request c _ x) as [[a | e] x']; reflexivity. }
  rewrite (E _ (spy client) (w, [])), (E _ client w).
  destruct (numberToHex (seconds parameters)) as [hex | e].
  - intros args. split; [reflexivity |]. split; [reflexivity |].
    unfold args. simpl. destruct (request client _ w) as [r w']. simpl. auto.
  - split; reflexivity.
Qed.

(** C1, as stated, fails at [seconds = -1]: the encoder throws, so the
    promise rejects with its error although the node would have fulfilled
    the request, and the recording client has seen no request. *)
Lemma increaseTime_negative_seconds_sends_no_request :
  increaseTime numberToHex_model (spy counting_client)
    {| seconds := IntegerValued (-1) |} (0, [])
  = (Rejected _ IntegerOutOfRangeError, (0, []))
  /\ List.length
       (snd (snd (increaseTime numberToHex_model (spy counting_client)
                    {| seconds := IntegerValued (-1) |} (0, [])))) <> 1
  /\ increaseTime numberToHex_model counting_client
       {| seconds := IntegerValued (-1) |} 0
     <> request counting_client
          {| method := "evm_increaseTime"; params := [JsString "-0x1"] |} 0.
Proof.
  split; [reflexivity |]. split; [simpl; discriminate |].
  vm_compute. discriminate.
Qed.

(** On the documented example, [seconds: 420], the one request carries
    ["0x1a4"]. *)
Lemma increaseTime_420 :
  snd (snd (increaseTime numberToHex_model (spy counting_client)
              {| seconds := IntegerValued 420 |} (0, [])))
  = [ {| method := "evm_increaseTime"; params := [JsString "0x1a4"] |} ].
Proof. reflexivity. Qed.

(* ------------------------------------------------------------------ *)
(** ** createClient *)

(** C8: The client [createClient] returns holds the chain descriptor it
    was given and no other: called with a chain, its [chain] is that
    chain; called without one, its [chain] is undefined. *)
Theorem createClient_chain
    (Chain Transport : Type) (c : Chain) (t : Transport) :
  chain (createClient {| config_chain := Some c; config_transport := t |})
    = Some c
  /\ chain (createClient {| config_chain := None (A := Chain);
                            config_transport := t |}) = None
  /\ forall config : ClientConfig Chain Transport,
       chain (createClient config) = config_chain config.
Proof. repeat split. Qed.

(* ------------------------------------------------------------------ *)
(** ** Entries of the tables *)

(** C6: The entry for [eth_call] takes either exactly one parameter, a
    partial transaction request, or exactly two, the partial transaction
    request followed by a block selector that is a block number, a block
    tag or a block identifier, and its result is a hex byte string; the
    entry for [eth_sendRawTransaction] takes exactly one parameter, the
    hex-encoded signed transaction, and its result is a hash. *)
Theorem eth_call_and_eth_sendRawTransaction_entries :
  entries_of "eth_call" EIP1474Methods
    = [ with_params "eth_call"
          (TUnion
             [ TTuple [lbl "transaction" (Partial TransactionRequest)];
               TTuple [lbl "transaction" (Partial TransactionRequest);
                       lbl "block"
                         (TUnion [BlockNumber; BlockTag; BlockIdentifier])] ])
          Hex ]
  /\ map (fun e => tuple_arities (Parameters e))
         (entries_of "eth_call" EIP1474Methods) = [Some [1; 2]]
  /\ entries_of "eth_sendRawTransaction" PublicRpcSchema
     = [ with_params "eth_sendRawTransaction"
           (TTuple [lbl "signedTransaction" Hex]) Hash ]
  /\ entries_of "eth_sendRawTransaction" WalletRpcSchema
     = entries_of "eth_sendRawTransaction" PublicRpcSchema
  /\ map (fun e => tuple_arities (Parameters e))
         (entries_of "eth_sendRawTransaction" EIP1474Methods)
     = [Some [1]; Some [1]]
  /\ EIP1193RequestFn_ReturnType (Some EIP1474Methods) None
       (args_type "eth_call"
          (TTuple [lbl "transaction" (Partial TransactionRequest)])) = Hex
  /\ EIP1193RequestFn_ReturnType (Some EIP1474Methods) None
       (args_type "eth_sendRawTransaction"
          (TTuple [lbl "signedTransaction" Hex])) = Hash
  /\ map (fun p => EIP1193Provider_request None (args_type "eth_call" p))
         [ TTuple [];
           TTuple [unl (Partial TransactionRequest)];
           TTuple [unl (Partial TransactionRequest); unl BlockNumber];
           TTuple [unl (Partial TransactionRequest); unl BlockTag];
           TTuple [unl (Partial TransactionRequest); unl BlockIdentifier];
           TTuple [unl (Partial TransactionRequest); unl BlockTag;
                   unl BlockTag] ]
     = [ None;
         Some {| fn_args :=
                   args_type "eth_call"
                     (TTuple [unl (Partial TransactionRequest)]);
                 fn_result := Promise_ Hex |};
         Some {| fn_args :=
                   args_type "eth_call"
                     (TTuple [unl (Partial TransactionRequest);
                              unl BlockNumber]);
                 fn_result := Promise_ Hex |};
         Some {| fn_args :=
                   args_type "eth_call"
                     (TTuple [unl (Partial TransactionRequest);
                              unl BlockTag]);
                 fn_result := Promise_ Hex |};
         Some {| fn_args :=
                   args_type "eth_call"
                     (TTuple [unl (Partial TransactionRequest);
                              unl BlockIdentifier]);
                 fn_result := Promise_ Hex |};
         None ]
  /\ map (fun p => EIP1193Provider_request None
                     (args_type "eth_sendRawTransaction" p))
         [ TTuple []; TTuple [unl Hex]; TTuple [unl Hex; unl Hex] ]
     = [ None;
         Some {| fn_args :=
                   args_type "eth_sendRawTransaction" (TTuple [unl Hex]);
                 fn_result := Promise_ Hash |};
         None ].
Proof. repeat split. Qed.

(** The tuples the [Parameters] of [eth_call] accepts have one or two
    elements, and those of [eth_sendRawTransaction] have one. *)
Lemma eth_call_params_arity (es : list (option string * TsType)) :
  assignable (TTuple es)
    (TUnion
       [ TTuple [lbl "transaction" (Partial TransactionRequest)];
         TTuple [lbl "transaction" (Partial TransactionRequest);
                 lbl "block" BlockSelector] ]) = true ->
  List.length es = 1 \/ List.length es = 2.
Proof.
  destruct es as [|[l1 x] [|[l2 y] [|[l3 z] es]]]; simpl; intros H; auto.
  - discriminate.
  - rewrite !andb_false_r in H. discriminate.
Qed.

Lemma eth_sendRawTransaction_params_arity
    (es : list (option string * TsType)) :
  assignable (TTuple es) (TTuple [lbl "signedTransaction" Hex]) = true ->
  List.length es = 1.
Proof.
  destruct es as [|[l1 x] [|[l2 y] es]]; simpl; intros H; auto.
  - discriminate.
  - rewrite !andb_false_r in H. discriminate.
Qed.

(** C10: In the wallet schema [eth_sign] takes [[address, data]], the
    signing address first, and [personal_sign] takes [[data, address]],
    the data first: the same two positions, an [Address] and a [Hex]
    (both names of [`0x${string}`]), in opposite orders, with the same
    [Hex] result. *)
Theorem eth_sign_and_personal_sign_argument_order :
  entries_of "eth_sign" WalletRpcSchema
    = [ with_params "eth_sign"
          (TTuple [lbl "address" Address; lbl "data" Hex]) Hex ]
  /\ entries_of "personal_sign" WalletRpcSchema
     = [ with_params "personal_sign"
           (TTuple [lbl "data" Hex; lbl "address" Address]) Hex ]
  /\ map (fun e => tuple_types (Parameters e))
         (entries_of "eth_sign" WalletRpcSchema) = [[Address; Hex]]
  /\ map (fun e => tuple_types (Parameters e))
         (entries_of "personal_sign" WalletRpcSchema)
     = map (fun e => rev (tuple_types (Parameters e)))
         (entries_of "eth_sign" WalletRpcSchema)
  /\ map (fun e => tuple_labels (Parameters e))
         (entries_of "personal_sign" WalletRpcSchema)
     = map (fun e => rev (tuple_labels (Parameters e)))
         (entries_of "eth_sign" WalletRpcSchema)
  /\ map Parameters (entries_of "personal_sign" WalletRpcSchema)
     <> map Parameters (entries_of "eth_sign" WalletRpcSchema)
  /\ map ReturnType (entries_of "personal_sign" WalletRpcSchema)
     = map ReturnType (entries_of "eth_sign" WalletRpcSchema).
Proof. repeat split. discriminate. Qed.

(* ------------------------------------------------------------------ *)
(** ** Method names that depend on the mode *)

Lemma length_append (a b : string) :
  String.length (a ++ b)%string = String.length a + String.length b.
Proof. induction a as [|c a IH]; simpl; [reflexivity | now rewrite IH]. Qed.

Lemma append_cancel_l (p a b : string) :
  (p ++ a)%string = (p ++ b)%string -> a = b.
Proof.
  induction p as [|c p IH]; simpl; intros H; [assumption |].
  injection H as H. now apply IH.
Qed.

Lemma append_cancel_r (a b s : string) :
  (a ++ s)%string = (b ++ s)%string -> a = b.
Proof.
  revert b. induction a as [|c a IH]; intros [|d b] H; simpl in H.
  - reflexivity.
  - apply (f_equal String.length) in H. simpl in H.
    rewrite length_append in H. lia.
  - apply (f_equal String.length) in H. simpl in H.
    rewrite length_append in H. lia.
  - injection H as -> H. f_equal. now apply IH.
Qed.

Lemma is_suffix_append (p suf : string) :
  is_suffix suf (p ++ suf)%string = true.
Proof.
  induction p as [|c p IH]; simpl.
  - destruct suf; simpl; rewrite ?Ascii.eqb_refl, ?String.eqb_refl;
      reflexivity.
  - rewrite IH. apply orb_true_r.
Qed.

(** Templates that name the same method at a mode may coincide. *)
Lemma may_coincide_sound (TMode : string) (a b : MethodTemplate) :
  instantiate TMode a = instantiate TMode b -> may_coincide a b = true.
Proof.
  destruct a as [x | x], b as [y | y]; simpl; intros H.
  - now apply String.eqb_eq.
  - subst x. apply is_suffix_append.
  - subst y. apply is_suffix_append.
  - apply String.eqb_eq. now apply append_cancel_l in H.
Qed.

Lemma TestRpcSchema_methods_at (TMode : string) :
  methods (TestRpcSchema TMode)
  = map (instantiate TMode) TestRpcSchema_methods.
Proof. reflexivity. Qed.

Lemma TestRpcSchema_method_template (TMode m : string) :
  In m (methods (TestRpcSchema TMode)) ->
  exists t, In t TestRpcSchema_methods /\ m = instantiate TMode t.
Proof.
  rewrite TestRpcSchema_methods_at, in_map_iff.
  intros [t [E H]]. exists t. auto.
Qed.

(** A method of the test table that is also among [names] comes from a
    template that may name one of them. *)
Lemma test_method_among (TMode m : string) (names : list string) :
  In m (methods (TestRpcSchema TMode)) -> In m names ->
  exists t, In t TestRpcSchema_methods /\ may_name names t = true
            /\ m = instantiate TMode t.
Proof.
  intros Ht Hn. destruct (TestRpcSchema_method_template Ht) as [t [Hin ->]].
  exists t. repeat split; [assumption |].
  unfold may_name. apply existsb_exists.
  exists (instantiate TMode t). split; [assumption |].
  now apply may_coincide_sound with (TMode := TMode).
Qed.

(* ------------------------------------------------------------------ *)
(** ** The schema of the provider *)

(** C4 (as amended): The schema [EIP1193Provider] dispatches over is the
    public table followed by the wallet table: every method of
    [PublicRpcSchema] and of [WalletRpcSchema] is a method of it, and it
    has no other.  The test table is not part of it: at every mode, no
    method of [TestRpcSchema] is a method of the provider's schema. *)
Theorem provider_schema_is_public_and_wallet :
  methods EIP1474Methods
    = methods PublicRpcSchema ++ methods WalletRpcSchema
  /\ (forall m,
        In m (methods EIP1474Methods)
        <-> In m (methods PublicRpcSchema) \/ In m (methods WalletRpcSchema))
  /\ (forall TMode m,
        In m (methods (TestRpcSchema TMode)) ->
        ~ In m (methods EIP1474Methods)).
Proof.
  assert (E : methods EIP1474Methods
              = methods PublicRpcSchema ++ methods WalletRpcSchema).
  { unfold methods, EIP1474Methods. apply map_app. }
  split; [exact E |]. split.
  - intros m. rewrite E. apply in_app_iff.
  - intros TMode m Ht Hp.
    destruct (@test_method_among TMode m _ Ht Hp) as [t [Hin [Hn _]]].
    assert (A : forallb (fun t => negb (may_name (methods EIP1474Methods) t))
                  TestRpcSchema_methods = true) by (vm_compute; reflexivity).
    rewrite forallb_forall in A. specialize (A t Hin).
    rewrite Hn in A. discriminate.
Qed.

Lemma provider_schema_witness :
  ~ In "evm_increaseTime" (methods EIP1474Methods).
Proof.
  apply (proj2 (proj2 provider_schema_is_public_and_wallet) "hardhat").
  simpl. tauto.
Defined.

(** C4, as stated, fails: [evm_snapshot] is in the test table and not in
    the schema of the provider, whose request function does not accept
    it. *)
Lemma test_method_not_in_provider_schema :
  In "evm_snapshot" (methods (TestRpcSchema "anvil"))
  /\ ~ In "evm_snapshot" (methods EIP1474Methods)
  /\ EIP1193Provider_request None (args_type_no_params "evm_snapshot") = None.
Proof.
  split; [simpl; tauto |]. split; [| vm_compute; reflexivity].
  rewrite <- has_method_true. vm_compute. discriminate.
Qed.

(* ------------------------------------------------------------------ *)
(** ** The dev-node methods *)

(** C7 (as amended): At every mode the test table has an entry for
    [evm_snapshot] (no parameters, [Quantity] result), for [evm_revert] (an
    optional [Parameters] of one element, the snapshot id), for
    [evm_increaseTime] (one parameter [seconds], [Quantity] result), and a
    mining entry whose name is the mode followed by [_mine]; it has a
    method named [evm_mine] exactly when the mode is ["evm"]. *)
Theorem test_schema_dev_node_methods (TMode : string) :
  In (no_params "evm_snapshot" Quantity) (TestRpcSchema TMode)
  /\ In (optional_params "evm_revert" (TTuple [lbl "id" Quantity]) TVoid)
        (TestRpcSchema TMode)
  /\ In (with_params "evm_increaseTime"
           (TTuple [lbl "seconds" Quantity]) Quantity)
        (TestRpcSchema TMode)
  /\ In (with_params (TMode ++ "_mine")
           (TTuple [lbl "count" Hex;
                    lbl "interval" (TUnion [Hex; TUndefined])])
           TVoid)
        (TestRpcSchema TMode)
  /\ (has_method "evm_mine" (TestRpcSchema TMode) = true <-> TMode = "evm").
Proof.
  repeat (split; [simpl; tauto |]). split.
  - rewrite has_method_true. intros H.
    destruct (TestRpcSchema_method_template H) as [t [Hin E]].
    assert (Hc : may_coincide t (Literal "evm_mine") = true).
    { apply may_coincide_sound with (TMode := TMode). now symmetry. }
    assert (A : filter (fun t => may_coincide t (Literal "evm_mine"))
                  TestRpcSchema_methods = [ModePrefixed "_mine"])
      by reflexivity.
    assert (Hf : In t [ModePrefixed "_mine"]).
    { rewrite <- A. apply filter_In. auto. }
    destruct Hf as [<- | []]. simpl in E.
    apply (@append_cancel_r TMode "evm" "_mine"). now symmetry.
  - intros ->. reflexivity.
Qed.

Lemma test_schema_dev_node_methods_witness :
  has_method "evm_mine" (TestRpcSchema "evm") = true.
Proof.
  apply (proj2 (proj2 (proj2 (proj2 (test_schema_dev_node_methods "evm"))))).
  reflexivity.
Defined.

(** C7, as stated, fails at the mode of the documented example: the test
    table of an anvil client has [anvil_mine] and no [evm_mine]. *)
Lemma anvil_test_schema_has_no_evm_mine :
  has_method "evm_mine" (TestRpcSchema "anvil") = false
  /\ has_method "anvil_mine" (TestRpcSchema "anvil") = true.
Proof. split; reflexivity. Qed.

(* ------------------------------------------------------------------ *)
(** ** The shape of [Parameters] *)

(** C5 (as amended): In the public, wallet and test tables, at every
    mode, the [Parameters] an entry declares is an ordered sequence of
    positional values (a tuple, an array, or a union of tuples), an entry
    with [Parameters?: never] declaring the empty one; the one exception is
    [wallet_watchAsset], whose [Parameters] is the object type
    [WatchAssetParams]. *)
Theorem parameters_are_sequences_except_watchAsset (TMode : string) :
  Forall
    (fun e =>
       params_is_sequence e = true
       \/ e = with_params "wallet_watchAsset" WatchAssetParams TBoolean)
    (PublicRpcSchema ++ WalletRpcSchema ++ TestRpcSchema TMode).
Proof.
  repeat (apply Forall_cons;
          [first [left; reflexivity | right; reflexivity] |]).
  apply Forall_nil.
Qed.

(** C5, as stated, fails in the wallet table: the [Parameters] of
    [wallet_watchAsset] is an object with the properties [type] and
    [options], not a sequence. *)
Lemma wallet_watchAsset_parameters_not_a_sequence :
  In (with_params "wallet_watchAsset" WatchAssetParams TBoolean)
     (PublicRpcSchema ++ WalletRpcSchema ++ TestRpcSchema "anvil")
  /\ params_is_sequence
       (with_params "wallet_watchAsset" WatchAssetParams TBoolean) = false
  /\ is_sequence WatchAssetParams = false
  /\ ~ (forall TMode e,
          In e (PublicRpcSchema ++ WalletRpcSchema ++ TestRpcSchema TMode) ->
          params_is_sequence e = true).
Proof.
  assert (Hin : In (with_params "wallet_watchAsset" WatchAssetParams TBoolean)
                  (PublicRpcSchema ++ WalletRpcSchema ++ TestRpcSchema "anvil")).
  { apply in_or_app. right. apply in_or_app. left. simpl. tauto. }
  repeat split; try assumption.
  intros H. specialize (H "anvil" _ Hin). discriminate.
Qed.

(* ------------------------------------------------------------------ *)
(** ** Methods declared twice *)

Lemma entry_eqb_eq (a b : RpcSchemaEntry) : entry_eqb a b = true -> a = b.
Proof.
  unfold entry_eqb. rewrite !andb_true_iff.
  intros [[[H1 H2] H3] H4].
  apply String.eqb_eq in H1. apply Bool.eqb_prop in H2.
  apply TsType_eqb_eq in H3. apply TsType_eqb_eq in H4.
  destruct a, b; simpl in *; congruence.
Qed.

Lemma shapes_agree_sound (s1 s2 : RpcSchema) :
  shapes_agree s1 s2 = true ->
  forall e1 e2, In e1 s1 -> In e2 s2 -> Method e1 = Method e2 -> e1 = e2.
Proof.
  unfold shapes_agree. intros H e1 e2 H1 H2 Hm.
  rewrite forallb_forall in H. specialize (H e1 H1).
  rewrite forallb_forall in H. specialize (H e2 H2).
  apply String.eqb_eq in Hm. rewrite Hm in H. simpl in H.
  now apply entry_eqb_eq.
Qed.

(** C9: The methods that [PublicRpcSchema] and [WalletRpcSchema] both
    declare are [eth_chainId], [eth_estimateGas] and
    [eth_sendRawTransaction], and each is declared with identical
    [Parameters] and [ReturnType] in the two tables.  In their
    concatenation [EIP1474Methods] narrowing by one of these names gives a
    single arm, the shared entry, and a single result type. *)
Theorem shared_methods_have_one_shape :
  shared_methods PublicRpcSchema WalletRpcSchema
    = ["eth_chainId"; "eth_estimateGas"; "eth_sendRawTransaction"]
  /\ (forall e1 e2,
        In e1 PublicRpcSchema -> In e2 WalletRpcSchema ->
        Method e1 = Method e2 ->
        Parameters_optional e1 = Parameters_optional e2
        /\ Parameters e1 = Parameters e2
        /\ ReturnType e1 = ReturnType e2)
  /\ map (fun m => Extract (schema_union EIP1474Methods)
                     (TObject [req "Method" (TStrLit m)]))
         (shared_methods PublicRpcSchema WalletRpcSchema)
     = map entry_type
         [ no_params "eth_chainId" Quantity;
           with_params "eth_estimateGas"
             (TUnion
                [ TTuple [lbl "transaction" TransactionRequest];
                  TTuple [lbl "transaction" TransactionRequest;
                          lbl "block" (TUnion [BlockNumber; BlockTag])] ])
             Quantity;
           with_params "eth_sendRawTransaction"
             (TTuple [lbl "signedTransaction" Hex]) Hash ]
  /\ map (fun m => EIP1193RequestFn_ReturnType (Some EIP1474Methods) None
                     (args_type_no_params m))
         (shared_methods PublicRpcSchema WalletRpcSchema)
     = [Quantity; Quantity; Hash].
Proof.
  split; [reflexivity |]. split; [| split; vm_compute; reflexivity].
  intros e1 e2 H1 H2 Hm.
  assert (A : shapes_agree PublicRpcSchema WalletRpcSchema = true)
    by (vm_compute; reflexivity).
  rewrite (@shapes_agree_sound _ _ A e1 e2 H1 H2 Hm). auto.
Qed.

Lemma shared_methods_witness :
  Parameters_optional (no_params "eth_chainId" Quantity)
    = Parameters_optional (no_params "eth_chainId" Quantity)
  /\ Parameters (no_params "eth_chainId" Quantity) = TNever
  /\ ReturnType (no_params "eth_chainId" Quantity) = Quantity.
Proof.
  apply (proj1 (proj2 shared_methods_have_one_shape)
           (no_params "eth_chainId" Quantity)
           (no_params "eth_chainId" Quantity)).
  - simpl. tauto.
  - simpl. tauto.
  - reflexivity.
Defined.

(* ------------------------------------------------------------------ *)
(** ** The reading of C2 holds on the test table at every mode *)

Lemma In_combine_map (A B C : Type) (f : A -> B) (g : A -> C)
    (l : list A) (x : A) :
  In x l -> In (f x, g x) (combine (map f l) (map g l)).
Proof.
  induction l as [|y l IH]; simpl; [tauto |].
  intros [-> | H]; [now left | right; auto].
Qed.

Lemma In_combine_map_l (A B C : Type) (f : A -> B)
    (l : list A) (r : list C) (b : B) (c : C) :
  In (b, c) (combine (map f l) r) ->
  exists a, In (a, c) (combine l r) /\ b = f a.
Proof.
  revert r. induction l as [|y l IH]; intros [|z r]; simpl; try tauto.
  intros [E | H].
  - injection E as <- <-. exists y. auto.
  - destruct (IH r H) as [a [Ha ->]]. exists a. auto.
Qed.

Lemma TestRpcSchema_row (TMode : string) (e : RpcSchemaEntry) :
  In e (TestRpcSchema TMode) ->
  exists t,
    In (t, ReturnType e)
       (combine TestRpcSchema_methods (map ReturnType (TestRpcSchema "")))
    /\ Method e = instantiate TMode t.
Proof.
  intros H.
  apply (@In_combine_map _ _ _ Method ReturnType) in H.
  change (map ReturnType (TestRpcSchema TMode))
    with (map ReturnType (TestRpcSchema "")) in H.
  change (map Method (TestRpcSchema TMode))
    with (map (instantiate TMode) TestRpcSchema_methods) in H.
  now apply In_combine_map_l in H.
Qed.

Lemma TestRpcSchema_return_types_agree (TMode : string) :
  forall e e', In e (TestRpcSchema TMode) -> In e' (TestRpcSchema TMode) ->
               Method e' = Method e -> ReturnType e' = ReturnType e.
Proof.
  intros e e' He He' Hm.
  destruct (@TestRpcSchema_row TMode e He) as [t [Ht Et]].
  destruct (@TestRpcSchema_row TMode e' He') as [t' [Ht' Et']].
  assert (A : test_return_types_agree = true) by (vm_compute; reflexivity).
  unfold test_return_types_agree in A.
  rewrite forallb_forall in A. specialize (A _ Ht).
  rewrite forallb_forall in A. specialize (A _ Ht'). simpl in A.
  rewrite (@may_coincide_sound TMode t' t) in A by congruence.
  now apply TsType_eqb_eq.
Qed.

(* ================================================================== *)
(** * Further properties of the request function *)
(* ================================================================== *)

(** ** Which calls the request function accepts *)

Lemma assignable_any (s : TsType) : assignable s TAny = true.
Proof.
  induction s using TsType_nested_ind; try reflexivity.
  simpl. apply forallb_forall. intros x Hx.
  rewrite Forall_forall in H. exact (H x Hx).
Qed.

Lemma existsb_same_elements (A : Type) (f : A -> bool) (l1 l2 : list A) :
  (forall x, In x l1 <-> In x l2) -> existsb f l1 = existsb f l2.
Proof.
  intros H. apply Bool.eq_iff_eq_true. rewrite !existsb_exists.
  split; intros [x [Hx Hf]]; exists x; split; auto; now apply H.
Qed.

Lemma existsb_pointwise (A : Type) (f g : A -> bool) (l : list A) :
  (forall x, f x = g x) -> existsb f l = existsb g l.
Proof.
  intros H. induction l as [|y l IH]; simpl; [reflexivity |].
  now rewrite H, IH.
Qed.

Lemma existsb_map_compose (A B : Type) (f : B -> bool) (g : A -> B)
    (l : list A) :
  existsb f (map g l) = existsb (fun x => f (g x)) l.
Proof.
  induction l as [|y l IH]; simpl; [reflexivity | now rewrite IH].
Qed.

(** An object type fits a union of object types when it fits one of
    them. *)
Lemma assignable_object_mk_union (ps : list Property) (l : list TsType) :
  (forall x, In x l -> record_like x) ->
  assignable (TObject ps) (mk_union l)
  = existsb (assignable (TObject ps)) l.
Proof.
  intros H.
  rewrite <- (existsb_same_elements _ _ _ (members_mk_union_records l H)).
  destruct (mk_union_records_cases l H) as [E | [[x [Hx E]] | [ms [E _]]]];
    rewrite E.
  - reflexivity.
  - rewrite (record_like_members x (H x Hx)). cbn [existsb].
    now rewrite orb_false_r.
  - reflexivity.
Qed.

Lemma index_access_entry_Parameters (e : RpcSchemaEntry) :
  index_access (entry_type e) "Parameters"
  = read_type (Parameters_optional e, Parameters e).
Proof. reflexivity. Qed.

Lemma cond_extends_not_any (c t a b : TsType) :
  c <> TAny ->
  cond_extends c t a b = if assignable c t then a else b.
Proof. destruct c; intros H; try reflexivity. congruence. Qed.

Lemma cond_extends_entry (e : RpcSchemaEntry) (t a b : TsType) :
  cond_extends (entry_type e) t a b
  = if assignable (entry_type e) t then a else b.
Proof. reflexivity. Qed.

Lemma params_accepted_not_any (declared : TsType) (p : option TsType) :
  declared <> TAny ->
  params_accepted declared p
  = if assignable declared TUndefined
    then match p with
         | None => true
         | Some p => assignable p TUndefined
         end
    else match p with
         | None => false
         | Some p => assignable p declared
         end.
Proof. destruct declared; intros H; try reflexivity. congruence. Qed.

Lemma tuple_not_undefined (es : list (option string * TsType)) :
  assignable (TTuple es) TUndefined = false.
Proof. reflexivity. Qed.

Lemma tuple_not_never (es : list (option string * TsType)) :
  assignable (TTuple es) TNever = false.
Proof. reflexivity. Qed.

Lemma assignable_tuple_union (es : list (option string * TsType))
    (ts : list TsType) :
  assignable (TTuple es) (TUnion ts) = existsb (assignable (TTuple es)) ts.
Proof. reflexivity. Qed.

(** The params part of an arm, against the two shapes of a call. *)
Lemma params_arm_accepts (m : string) (p : option TsType) (declared : TsType) :
  assignable (call_args m p)
    (cond_extends declared TUndefined
       (TObject [opt "params" TNever])
       (TObject [req "params" declared]))
  = params_accepted declared p.
Proof.
  assert (Hany : declared = TAny \/ declared <> TAny).
  { destruct declared; auto; right; discriminate. }
  destruct Hany as [-> | Hn].
  - destruct p as [p |]; [| reflexivity].
    unfold call_args, args_type. cbn [cond_extends].
    change (mk_union [TObject [opt "params" TNever];
                      TObject [req "params" TAny]])
      with (TUnion [TObject [opt "params" TNever];
                    TObject [req "params" TAny]]).
    rewrite assignable_object_union. cbn [existsb].
    rewrite (assignable_object_object _ [req "params" TAny]).
    cbn [forallb]. unfold prop_assignable, req. simpl lookup_prop.
    cbv beta iota. rewrite assignable_any. simpl. apply orb_true_r.
  - rewrite (cond_extends_not_any _ _ _ Hn).
    rewrite (params_accepted_not_any p Hn).
    destruct (assignable declared TUndefined);
      destruct p as [p |]; unfold call_args, args_type, args_type_no_params;
      rewrite assignable_object_object; cbn [forallb];
      unfold prop_assignable, req, opt; simpl lookup_prop;
      try reflexivity.
    + change (mk_union [TNever; TUndefined]) with TUndefined.
      apply andb_true_r.
    + simpl. apply andb_true_r.
Qed.

(** The arm of an entry accepts a call exactly when the entry is named as
    the call, is an element of the schema in the sense of the arm's own
    check, and its declared [Parameters] admit the params of the call. *)
Lemma request_arm_accepts (s : RpcSchema) (e : RpcSchemaEntry)
    (m : string) (p : option TsType) :
  assignable (call_args m p) (request_arm s e) = entry_accepts s m p e.
Proof.
  unfold entry_accepts, request_arm, Prettify.
  assert (Hobj : exists ps, call_args m p = TObject ps
                   /\ lookup_prop "method" ps = Some (false, TStrLit m)).
  { destruct p; eexists; split; reflexivity. }
  destruct Hobj as [ps [Eps Hl]].
  rewrite <- (params_arm_accepts m p).
  rewrite Eps at 1. rewrite assignable_object_intersection. cbn [forallb].
  rewrite assignable_object_object. cbn [forallb].
  unfold prop_assignable at 1. unfold req at 1. rewrite Hl.
  rewrite index_access_entry_Method, !cond_extends_entry.
  destruct (assignable (entry_type e) (schema_union s)).
  - rewrite assignable_strlit, (String.eqb_sym m), <- Eps.
    cbn [negb andb]. now rewrite !andb_true_r.
  - rewrite assignable_object_never. cbn [negb andb].
    now rewrite !andb_false_r.
Qed.

Lemma assignable_call_schema (s : RpcSchema) (m : string) (p : option TsType) :
  assignable (call_args m p) (EIP1193Parameters (Some s))
  = existsb (entry_accepts s m p) s.
Proof.
  unfold EIP1193Parameters.
  assert (Hobj : exists ps, call_args m p = TObject ps).
  { destruct p; eexists; reflexivity. }
  destruct Hobj as [ps Eps]. rewrite Eps.
  rewrite assignable_object_mk_union.
  - rewrite existsb_map_compose. apply existsb_pointwise.
    intros e. rewrite <- Eps. apply request_arm_accepts.
  - intros x Hx. apply in_map_iff in Hx. destruct Hx as [e [<- _]]. exact I.
Qed.

Lemma call_args_method (m : string) (p : option TsType) :
  index_access (call_args m p) "method" = TStrLit m.
Proof. destruct p; reflexivity. Qed.

(** The request function on a call, decided entry by entry. *)
Lemma request_fn_on_call (TRpcSchema TRpcSchemaOverrides : option RpcSchema)
    (schema : RpcSchema) (m : string) (p : option TsType) :
  DerivedRpcSchema TRpcSchema TRpcSchemaOverrides = Some schema ->
  EIP1193RequestFn TRpcSchema TRpcSchemaOverrides (call_args m p)
  = if existsb (entry_accepts schema m p) schema
    then Some {| fn_args := call_args m p;
                 fn_result :=
                   Promise_ (EIP1193RequestFn_ReturnType
                               TRpcSchema TRpcSchemaOverrides
                               (call_args m p)) |}
    else None.
Proof.
  intros Hd. unfold EIP1193RequestFn. rewrite Hd.
  now rewrite assignable_call_schema.
Qed.

(** Acceptance of a call, entry by entry. *)
Lemma call_accepted_iff
    (TRpcSchema TRpcSchemaOverrides : option RpcSchema)
    (schema : RpcSchema) (m : string) (p : option TsType) :
  DerivedRpcSchema TRpcSchema TRpcSchemaOverrides = Some schema ->
  (EIP1193RequestFn TRpcSchema TRpcSchemaOverrides (call_args m p) <> None
   <-> exists e,
         In e schema /\ Method e = m
         /\ assignable (entry_type e) (schema_union schema) = true
         /\ params_accepted (index_access (entry_type e) "Parameters") p
            = true).
Proof.
  intros Hd. rewrite (request_fn_on_call _ _ m p Hd).
  destruct (existsb (entry_accepts schema m p) schema) eqn:E.
  - split; [intros _ | discriminate].
    apply existsb_exists in E. destruct E as [e [He Ha]].
    unfold entry_accepts in Ha. rewrite !andb_true_iff in Ha.
    destruct Ha as [[H1 H2] H3]. apply String.eqb_eq in H1.
    exists e. auto.
  - split; [congruence |]. intros [e [He [Hm [H2 H3]]]].
    assert (E' : existsb (entry_accepts schema m p) schema = true).
    { apply existsb_exists. exists e. split; [assumption |].
      unfold entry_accepts. rewrite H2, H3.
      apply String.eqb_eq in Hm. now rewrite Hm. }
    congruence.
Qed.

(** An element of a schema passes the arm's check as soon as its own type
    fits itself. *)
Lemma entry_extends_schema (s : RpcSchema) (e : RpcSchemaEntry) :
  In e s ->
  assignable (entry_type e) (entry_type e) = true ->
  assignable (entry_type e) (schema_union s) = true.
Proof.
  intros He Hr. unfold schema_union, entry_type at 1.
  rewrite assignable_object_mk_union.
  - apply existsb_exists. exists (entry_type e). split.
    + now apply in_map.
    + exact Hr.
  - intros x Hx. apply in_map_iff in Hx. destruct Hx as [e' [<- _]]. exact I.
Qed.

Lemma declares_no_params_access (e : RpcSchemaEntry) :
  declares_no_params e = true ->
  index_access (entry_type e) "Parameters" = TUndefined.
Proof.
  unfold declares_no_params. rewrite index_access_entry_Parameters.
  destruct e as [m o P R]. simpl. destruct o; [| discriminate].
  destruct P; simpl; intros H; try discriminate. reflexivity.
Qed.

Lemma existsb_false_iff (A : Type) (f : A -> bool) (l : list A) :
  existsb f l = false <-> forall x, In x l -> f x = false.
Proof.
  split.
  - intros H x Hx. destruct (f x) eqn:E; [| reflexivity].
    assert (existsb f l = true) by (apply existsb_exists; eauto).
    congruence.
  - apply existsb_none.
Qed.

(** X2: A method whose entries all declare [Parameters?: never] is called
    without a [params] property; a call that has one is accepted only if
    its type is [undefined] (in particular, passing an empty tuple is
    refused). *)
Theorem no_params_method_calls
    (TRpcSchema TRpcSchemaOverrides : option RpcSchema)
    (schema : RpcSchema) (e : RpcSchemaEntry) :
  DerivedRpcSchema TRpcSchema TRpcSchemaOverrides = Some schema ->
  In e schema ->
  assignable (entry_type e) (schema_union schema) = true ->
  (forall e', In e' schema -> Method e' = Method e ->
              declares_no_params e' = true) ->
  EIP1193RequestFn TRpcSchema TRpcSchemaOverrides
    (call_args (Method e) None) <> None
  /\ (forall p,
        EIP1193RequestFn TRpcSchema TRpcSchemaOverrides
          (call_args (Method e) (Some p)) <> None
        <-> assignable p TUndefined = true)
  /\ (forall es,
        EIP1193RequestFn TRpcSchema TRpcSchemaOverrides
          (call_args (Method e) (Some (TTuple es))) = None).
Proof.
  intros Hd He Hext Hall.
  assert (Hp : forall p,
             EIP1193RequestFn TRpcSchema TRpcSchemaOverrides
               (call_args (Method e) (Some p)) <> None
             <-> assignable p TUndefined = true).
  { intros p. rewrite (call_accepted_iff _ _ (Method e) (Some p) Hd).
    split.
    - intros [e' [He' [Hm [_ Ha]]]].
      rewrite (declares_no_params_access e' (Hall e' He' Hm)) in Ha.
      exact Ha.
    - intros Ha. exists e. repeat split; try assumption.
      rewrite (declares_no_params_access e (Hall e He eq_refl)).
      exact Ha. }
  split; [| split; [exact Hp |]].
  - apply (call_accepted_iff _ _ (Method e) None Hd).
    exists e. repeat split; try assumption.
    now rewrite (declares_no_params_access e (Hall e He eq_refl)).
  - intros es.
    destruct (EIP1193RequestFn TRpcSchema TRpcSchemaOverrides
                (call_args (Method e) (Some (TTuple es)))) eqn:E;
      [| reflexivity].
    assert (Hne : EIP1193RequestFn TRpcSchema TRpcSchemaOverrides
                    (call_args (Method e) (Some (TTuple es))) <> None)
      by congruence.
    apply Hp in Hne. rewrite tuple_not_undefined in Hne. discriminate Hne.
Qed.

Lemma In_entries_of (s : RpcSchema) (m : string) (e : RpcSchemaEntry) :
  In e s -> Method e = m -> In e (entries_of m s).
Proof.
  intros He Hm. unfold entries_of. apply filter_In. split; [assumption |].
  now apply String.eqb_eq.
Qed.

Lemma no_params_method_calls_witness :
  EIP1193RequestFn (Some EIP1474Methods) None
    (call_args "eth_blockNumber" None) <> None
  /\ (forall p,
        EIP1193RequestFn (Some EIP1474Methods) None
          (call_args "eth_blockNumber" (Some p)) <> None
        <-> assignable p TUndefined = true)
  /\ (forall es,
        EIP1193RequestFn (Some EIP1474Methods) None
          (call_args "eth_blockNumber" (Some (TTuple es))) = None).
Proof.
  apply (@no_params_method_calls (Some EIP1474Methods) None EIP1474Methods
           (no_params "eth_blockNumber" Quantity)).
  - reflexivity.
  - simpl. tauto.
  - vm_compute. reflexivity.
  - intros e' He' Hm.
    apply (@In_entries_of _ _ _ He') in Hm.
    destruct Hm as [<- | []]. reflexivity.
Defined.

(** ** Arity of the params *)

Lemma tuple_assignable_length (es fs : list (option string * TsType)) :
  assignable (TTuple es) (TTuple fs) = true ->
  List.length es = List.length fs.
Proof.
  revert fs. induction es as [|[l1 x] es IH]; intros [|[l2 y] fs];
    simpl; intros H; try discriminate; [reflexivity |].
  apply andb_true_iff in H. destruct H as [_ H].
  f_equal. now apply IH.
Qed.

(** A tuple that fits a tuple type, or a union of tuple types, has one of
    the lengths that type admits. *)
Lemma tuple_assignable_arity (P : TsType)
    (es : list (option string * TsType)) (ns : list nat) :
  tuple_arities P = Some ns ->
  assignable (TTuple es) P = true ->
  In (List.length es) ns.
Proof.
  unfold tuple_arities.
  assert (G : forall ts ns,
             (fix go (l : list TsType) : option (list nat) :=
                match l with
                | [] => Some []
                | TTuple es :: l' =>
                    match go l' with
                    | Some ns => Some (List.length es :: ns)
                    | None => None
                    end
                | _ => None
                end) ts = Some ns ->
             existsb (assignable (TTuple es)) ts = true ->
             In (List.length es) ns).
  { induction ts as [|t ts IH]; intros ns' Hgo Hex; [discriminate Hex |].
    destruct t as [| | | | | | | | | | | | | | |fs| | |];
      try discriminate Hgo.
    destruct ((fix go (l : list TsType) : option (list nat) :=
                 match l with
                 | [] => Some []
                 | TTuple es :: l' =>
                     match go l' with
                     | Some ns => Some (List.length es :: ns)
                     | None => None
                     end
                 | _ => None
                 end) ts) as [ns0 |] eqn:E; [| discriminate Hgo].
    injection Hgo as <-. cbn [existsb] in Hex.
    apply orb_true_iff in Hex. destruct Hex as [Hex | Hex].
    - left. symmetry. now apply tuple_assignable_length.
    - right. now apply IH. }
  intros Hgo Ha. apply (G (members P)); [exact Hgo |].
  destruct P as [| | | | | | | | | | | | | | |fs| |ms|];
    try discriminate Hgo.
  - rewrite tuple_not_never in Ha. discriminate Ha.
  - unfold members. cbn [existsb]. now rewrite orb_false_r.
  - unfold members. now rewrite <- assignable_tuple_union.
Qed.

(** X3: A call whose params tuple has a number of elements that no entry
    of that method admits is refused: when every entry named [m] declares
    a required [Parameters] that is a tuple type or a union of tuple types,
    a params tuple of another length does not type-check. *)
Theorem wrong_arity_rejected
    (TRpcSchema TRpcSchemaOverrides : option RpcSchema)
    (schema : RpcSchema) (m : string)
    (es : list (option string * TsType)) :
  DerivedRpcSchema TRpcSchema TRpcSchemaOverrides = Some schema ->
  (forall e, In e schema -> Method e = m ->
             Parameters_optional e = false
             /\ exists ns, tuple_arities (Parameters e) = Some ns
                           /\ ~ In (List.length es) ns) ->
  EIP1193RequestFn TRpcSchema TRpcSchemaOverrides
    (call_args m (Some (TTuple es))) = None.
Proof.
  intros Hd Hall.
  destruct (EIP1193RequestFn TRpcSchema TRpcSchemaOverrides
              (call_args m (Some (TTuple es)))) eqn:E; [| reflexivity].
  exfalso.
  assert (Hne : EIP1193RequestFn TRpcSchema TRpcSchemaOverrides
                  (call_args m (Some (TTuple es))) <> None) by congruence.
  apply (call_accepted_iff _ _ m (Some (TTuple es)) Hd) in Hne.
  destruct Hne as [e [He [Hm [_ Ha]]]].
  destruct (Hall e He Hm) as [Ho [ns [Hns Hnot]]].
  rewrite index_access_entry_Parameters, Ho in Ha. unfold read_type in Ha.
  cbn [fst snd] in Ha. apply Hnot.
  apply (tuple_assignable_arity _ _ Hns).
  assert (Hn : Parameters e <> TAny).
  { intros EP. rewrite EP in Hns. discriminate Hns. }
  rewrite (params_accepted_not_any _ Hn) in Ha.
  destruct (assignable (Parameters e) TUndefined); [| exact Ha].
  rewrite tuple_not_undefined in Ha. discriminate Ha.
Qed.

Lemma wrong_arity_rejected_witness :
  EIP1193RequestFn (Some EIP1474Methods) None
    (call_args "eth_call"
       (Some (TTuple [unl (Partial TransactionRequest); unl BlockTag;
                      unl BlockTag]))) = None.
Proof.
  apply (@wrong_arity_rejected (Some EIP1474Methods) None EIP1474Methods
           "eth_call").
  - reflexivity.
  - intros e He Hm. apply (@In_entries_of _ _ _ He) in Hm.
    destruct Hm as [<- | []]. split; [reflexivity |].
    exists [1; 2]. split; [reflexivity |].
    simpl. intros [H | [H | []]]; discriminate.
Defined.

Lemma sequence_not_undefined (P : TsType) :
  is_sequence P = true ->
  P <> TAny /\ assignable P TUndefined = false.
Proof.
  destruct P as [| | | | | | | | | | | | | |x|fs| |ms|]; intros H;
    try discriminate H.
  - split; [discriminate | reflexivity].
  - split; [discriminate | reflexivity].
  - split; [discriminate |].
    destruct ms as [|t ts]; [discriminate H |].
    unfold is_sequence, members in H. cbn [forallb] in H.
    apply andb_true_iff in H. destruct H as [Ht _].
    destruct t as [| | | | | | | | | | | | | |x|fs| |ms|];
      try discriminate Ht; reflexivity.
Qed.

(** X4: A method whose entries all declare a required [Parameters] that is
    an ordered sequence (a tuple, an array or a union of them) cannot be
    called without a [params] property. *)
Theorem call_without_params_rejected
    (TRpcSchema TRpcSchemaOverrides : option RpcSchema)
    (schema : RpcSchema) (m : string) :
  DerivedRpcSchema TRpcSchema TRpcSchemaOverrides = Some schema ->
  (forall e, In e schema -> Method e = m ->
             Parameters_optional e = false
             /\ is_sequence (Parameters e) = true) ->
  EIP1193RequestFn TRpcSchema TRpcSchemaOverrides (call_args m None) = None.
Proof.
  intros Hd Hall.
  destruct (EIP1193RequestFn TRpcSchema TRpcSchemaOverrides
              (call_args m None)) eqn:E; [| reflexivity].
  exfalso.
  assert (Hne : EIP1193RequestFn TRpcSchema TRpcSchemaOverrides
                  (call_args m None) <> None) by congruence.
  apply (call_accepted_iff _ _ m None Hd) in Hne.
  destruct Hne as [e [He [Hm [_ Ha]]]].
  destruct (Hall e He Hm) as [Ho Hs].
  rewrite index_access_entry_Parameters, Ho in Ha. unfold read_type in Ha.
  cbn [fst snd] in Ha.
  destruct (sequence_not_undefined _ Hs) as [Hn Hu].
  rewrite (params_accepted_not_any _ Hn), Hu in Ha. discriminate Ha.
Qed.

Lemma call_without_params_rejected_witness :
  EIP1193RequestFn (Some EIP1474Methods) None
    (call_args "eth_sendRawTransaction" None) = None.
Proof.
  apply (@call_without_params_rejected (Some EIP1474Methods) None
           EIP1474Methods "eth_sendRawTransaction").
  - reflexivity.
  - intros e He Hm. apply (@In_entries_of _ _ _ He) in Hm.
    destruct Hm as [<- | [<- | []]]; split; reflexivity.
Defined.

(** ** The result of an accepted call *)

Lemma return_type_of_method (s : RpcSchema) (m : string) (r : TsType) :
  (exists e, In e s /\ Method e = m) ->
  (forall e, In e s -> Method e = m -> ReturnType e = r) ->
  index_access
    (Extract (schema_union s) (TObject [req "Method" (TStrLit m)]))
    "ReturnType" = r.
Proof.
  intros [e [He Hm]] Hall. unfold index_access. apply mk_union_all_same.
  - assert (Hin : In (entry_type e)
                    (members (Extract (schema_union s)
                                (TObject [req "Method" (TStrLit m)])))).
    { apply In_Extract_schema. exists e. auto. }
    destruct (members _); [contradiction | discriminate].
  - intros y Hy. apply in_map_iff in Hy. destruct Hy as [x [<- Hx]].
    apply In_Extract_schema in Hx. destruct Hx as [e' [He' [Hm' ->]]].
    simpl. now apply Hall.
Qed.

(** ** Calls on the test table, at every mode *)

Lemma In_combine_map_r (A B C : Type) (g : B -> C)
    (l : list A) (r : list B) (a : A) (c : C) :
  In (a, c) (combine l (map g r)) ->
  exists b, In (a, b) (combine l r) /\ c = g b.
Proof.
  revert r. induction l as [|y l IH]; intros [|z r]; simpl; try tauto.
  intros [E | H].
  - injection E as <- <-. exists z. auto.
  - destruct (IH r H) as [b [Hb ->]]. exists b. auto.
Qed.

(** Every entry of the test table at a mode is a row of the table as
    written: its name instantiates the template of the row, and the rest
    is the rest of the row. *)
Lemma TestRpcSchema_entry_row (TMode : string) (e : RpcSchemaEntry) :
  In e (TestRpcSchema TMode) ->
  exists t e0,
    In (t, e0) TestRpcSchema_rows
    /\ Method e = instantiate TMode t /\ shape e = shape e0.
Proof.
  intros H.
  apply (@In_combine_map _ _ _ Method shape) in H.
  change (map shape (TestRpcSchema TMode))
    with (map shape (TestRpcSchema "")) in H.
  change (map Method (TestRpcSchema TMode))
    with (map (instantiate TMode) TestRpcSchema_methods) in H.
  apply In_combine_map_l in H. destruct H as [t [H E]].
  apply In_combine_map_r in H. destruct H as [e0 [H E0]].
  exists t, e0. auto.
Qed.

Lemma test_entries_named (TMode m : string) (e : RpcSchemaEntry) :
  In e (TestRpcSchema TMode) -> Method e = m ->
  exists t e0,
    In (t, e0)
       (filter (fun r => may_coincide (fst r) (Literal m)) TestRpcSchema_rows)
    /\ m = instantiate TMode t /\ shape e = shape e0.
Proof.
  intros He Hm.
  destruct (@TestRpcSchema_entry_row TMode e He) as [t [e0 [Hin [Et Es]]]].
  exists t, e0. repeat split; [| congruence | assumption].
  apply filter_In. split; [assumption |]. cbn [fst].
  apply may_coincide_sound with (TMode := TMode). simpl. congruence.
Qed.

(** A call is refused when the params do not fit any entry of its name. *)
Lemma call_rejected (s : RpcSchema) (m : string) (p : option TsType) :
  (forall e, In e s -> Method e = m ->
             params_accepted
               (read_type (Parameters_optional e, Parameters e)) p = false) ->
  EIP1193RequestFn (Some s) None (call_args m p) = None.
Proof.
  intros H. rewrite (@request_fn_on_call (Some s) None s m p eq_refl).
  rewrite existsb_none; [reflexivity |].
  intros e He. unfold entry_accepts.
  destruct (String.eqb (Method e) m) eqn:E; [| reflexivity].
  apply String.eqb_eq in E.
  rewrite index_access_entry_Parameters, (H e He E).
  apply andb_false_r.
Qed.

(** A call is accepted when the params fit an entry of its name whose own
    type fits itself; the result is then typed by the schema. *)
Lemma call_accepted (s : RpcSchema) (e : RpcSchemaEntry)
    (p : option TsType) :
  In e s ->
  assignable (entry_type e) (entry_type e) = true ->
  params_accepted (read_type (Parameters_optional e, Parameters e)) p
    = true ->
  EIP1193RequestFn (Some s) None (call_args (Method e) p)
  = Some {| fn_args := call_args (Method e) p;
            fn_result :=
              Promise_ (EIP1193RequestFn_ReturnType (Some s) None
                          (call_args (Method e) p)) |}.
Proof.
  intros He Hr Hp.
  rewrite (@request_fn_on_call (Some s) None s (Method e) p eq_refl).
  assert (E : existsb (entry_accepts s (Method e) p) s = true).
  { apply existsb_exists. exists e. split; [assumption |].
    unfold entry_accepts.
    rewrite String.eqb_refl, (entry_extends_schema s e He Hr).
    now rewrite index_access_entry_Parameters, Hp. }
  now rewrite E.
Qed.

Lemma test_call_return_type (TMode : string) (e : RpcSchemaEntry)
    (p : option TsType) :
  In e (TestRpcSchema TMode) ->
  EIP1193RequestFn_ReturnType (Some (TestRpcSchema TMode)) None
    (call_args (Method e) p) = ReturnType e.
Proof.
  intros He. unfold EIP1193RequestFn_ReturnType. cbn [DerivedRpcSchema].
  rewrite call_args_method. apply return_type_of_method.
  - exists e. auto.
  - intros e' He' Hm.
    now apply (@TestRpcSchema_return_types_agree TMode e e').
Qed.

(** X6: At every mode of the test client, [evm_revert], the one method
    whose [Parameters] is optional without being [never], must be called
    with a [params] property: a call without it is refused, as is one with
    an empty tuple, while [params: undefined] and a one-element tuple with
    the snapshot id are accepted, with result [Promise<void>]. *)
Theorem evm_revert_calls (TMode : string) :
  let request := EIP1193RequestFn (Some (TestRpcSchema TMode)) None in
  request (call_args "evm_revert" None) = None
  /\ request (call_args "evm_revert" (Some (TTuple []))) = None
  /\ request (call_args "evm_revert" (Some TUndefined))
     = Some {| fn_args := call_args "evm_revert" (Some TUndefined);
               fn_result := Promise_ TVoid |}
  /\ request (call_args "evm_revert" (Some (TTuple [lbl "id" Quantity])))
     = Some {| fn_args :=
                 call_args "evm_revert" (Some (TTuple [lbl "id" Quantity]));
               fn_result := Promise_ TVoid |}.
Proof.
  intros request. subst request.
  set (e0 := optional_params "evm_revert" (TTuple [lbl "id" Quantity]) TVoid).
  assert (Hin : In e0 (TestRpcSchema TMode)) by (simpl; tauto).
  assert (Hnamed : forall e, In e (TestRpcSchema TMode) ->
                     Method e = "evm_revert" ->
                     read_type (Parameters_optional e, Parameters e)
                     = TUnion [TTuple [lbl "id" Quantity]; TUndefined]).
  { intros e He Hm.
    destruct (@test_entries_named TMode "evm_revert" e He Hm)
      as [t [e1 [Hf [_ Hs]]]].
    assert (F : filter (fun r => may_coincide (fst r) (Literal "evm_revert"))
                  TestRpcSchema_rows = [(Literal "evm_revert", e0)])
      by (vm_compute; reflexivity).
    rewrite F in Hf. destruct Hf as [E | []]. injection E as _ <-.
    unfold shape in Hs. injection Hs as -> -> _. reflexivity. }
  assert (Hr : assignable (entry_type e0) (entry_type e0) = true)
    by (vm_compute; reflexivity).
  repeat split.
  - apply call_rejected. intros e He Hm.
    now rewrite (Hnamed e He Hm).
  - apply call_rejected. intros e He Hm.
    now rewrite (Hnamed e He Hm).
  - etransitivity;
      [apply (@call_accepted (TestRpcSchema TMode) e0 (Some TUndefined));
       [assumption | assumption | reflexivity] |].
    now rewrite (@test_call_return_type TMode e0 _ Hin).
  - etransitivity;
      [apply (@call_accepted (TestRpcSchema TMode) e0
                (Some (TTuple [lbl "id" Quantity])));
       [assumption | assumption | reflexivity] |].
    now rewrite (@test_call_return_type TMode e0 _ Hin).
Qed.

(** X7: At every mode of the test client, [evm_snapshot] is called
    without params and gives a [Promise<Quantity>], and is refused with an
    empty params tuple; [evm_increaseTime], the method [increaseTime]
    requests, is called with one [Quantity] and gives a
    [Promise<Quantity>], and is refused without params. *)
Theorem evm_snapshot_and_evm_increaseTime_calls (TMode : string) :
  let request := EIP1193RequestFn (Some (TestRpcSchema TMode)) None in
  request (call_args "evm_snapshot" None)
    = Some {| fn_args := call_args "evm_snapshot" None;
              fn_result := Promise_ Quantity |}
  /\ request (call_args "evm_snapshot" (Some (TTuple []))) = None
  /\ request (call_args "evm_increaseTime"
                (Some (TTuple [lbl "seconds" Quantity])))
     = Some {| fn_args :=
                 call_args "evm_increaseTime"
                   (Some (TTuple [lbl "seconds" Quantity]));
               fn_result := Promise_ Quantity |}
  /\ request (call_args "evm_increaseTime" None) = None.
Proof.
  intros request. subst request.
  set (snap := no_params "evm_snapshot" Quantity).
  set (inc := with_params "evm_increaseTime"
                (TTuple [lbl "seconds" Quantity]) Quantity).
  set (inc' := with_params "_increaseTime"
                 (TTuple [lbl "seconds" TNumber]) Quantity).
  assert (Hsnap : In snap (TestRpcSchema TMode)) by (simpl; tauto).
  assert (Hinc : In inc (TestRpcSchema TMode)) by (simpl; tauto).
  repeat split.
  - etransitivity;
      [apply (@call_accepted (TestRpcSchema TMode) snap None);
       [assumption | vm_compute; reflexivity | reflexivity] |].
    now rewrite (@test_call_return_type TMode snap _ Hsnap).
  - apply call_rejected. intros e He Hm.
    destruct (@test_entries_named TMode "evm_snapshot" e He Hm)
      as [t [e1 [Hf [_ Hs]]]].
    assert (F : filter (fun r => may_coincide (fst r) (Literal "evm_snapshot"))
                  TestRpcSchema_rows = [(Literal "evm_snapshot", snap)])
      by (vm_compute; reflexivity).
    rewrite F in Hf. destruct Hf as [E | []]. injection E as _ <-.
    unfold shape in Hs. injection Hs as -> -> _. reflexivity.
  - etransitivity;
      [apply (@call_accepted (TestRpcSchema TMode) inc
                (Some (TTuple [lbl "seconds" Quantity])));
       [assumption | vm_compute; reflexivity | reflexivity] |].
    now rewrite (@test_call_return_type TMode inc _ Hinc).
  - apply call_rejected. intros e He Hm.
    destruct (@test_entries_named TMode "evm_increaseTime" e He Hm)
      as [t [e1 [Hf [_ Hs]]]].
    assert (F : filter
                  (fun r => may_coincide (fst r) (Literal "evm_increaseTime"))
                  TestRpcSchema_rows
                = [(ModePrefixed "_increaseTime", inc');
                   (Literal "evm_increaseTime", inc)])
      by (vm_compute; reflexivity).
    rewrite F in Hf. unfold shape in Hs.
    destruct Hf as [E | [E | []]]; injection E as _ <-;
      injection Hs as -> -> _; reflexivity.
Qed.

(** ** Methods declared once *)

Lemma nodupb_NoDup (l : list string) : nodupb l = true <-> NoDup l.
Proof.
  induction l as [|x l IH]; simpl.
  - split; [constructor | reflexivity].
  - rewrite andb_true_iff, negb_true_iff, IH. split.
    + intros [Hx Hl]. constructor; [| assumption].
      intros Hin.
      assert (E : existsb (String.eqb x) l = true).
      { apply existsb_exists. exists x. split;
          [assumption | apply String.eqb_refl]. }
      congruence.
    + intros H. inversion H as [| y l' Hx Hl]; subst. split; [| assumption].
      apply existsb_none. intros y Hy. apply String.eqb_neq.
      intros ->. contradiction.
Qed.

Lemma MethodTemplate_eqb_eq (a b : MethodTemplate) :
  MethodTemplate_eqb a b = true -> a = b.
Proof.
  destruct a, b; simpl; intros H; try discriminate H;
    apply String.eqb_eq in H; now subst.
Qed.

Lemma increaseTime_pair_mode (TMode : string) (a b : MethodTemplate) :
  is_increaseTime_pair a b = true ->
  instantiate TMode a = instantiate TMode b ->
  TMode = "evm".
Proof.
  destruct a as [x | x], b as [y | y]; simpl; intros H E;
    try discriminate H;
    apply andb_true_iff in H; destruct H as [H1 H2];
    apply String.eqb_eq in H1; apply String.eqb_eq in H2; subst.
  - apply (@append_cancel_r TMode "evm" "_increaseTime"). now symmetry.
  - now apply (@append_cancel_r TMode "evm" "_increaseTime").
Qed.

(** X8: In the test table no method is declared twice, at every mode but
    ["evm"]: there [`${TMode}_increaseTime`] and ['evm_increaseTime'] are
    the same name, declared with a [number] and with a [Quantity]. *)
Theorem test_schema_methods_distinct (TMode : string) :
  NoDup (methods (TestRpcSchema TMode)) <-> TMode <> "evm".
Proof.
  split.
  - intros H ->. apply nodupb_NoDup in H. discriminate H.
  - intros Hmode. rewrite TestRpcSchema_methods_at.
    apply NoDup_map_NoDup_ForallPairs.
    + intros a b Ha Hb E.
      assert (A : forallb
                    (fun a =>
                       forallb
                         (fun b =>
                            implb (may_coincide a b)
                                  (MethodTemplate_eqb a b
                                   || is_increaseTime_pair a b))
                         TestRpcSchema_methods)
                    TestRpcSchema_methods = true)
        by (vm_compute; reflexivity).
      rewrite forallb_forall in A. specialize (A a Ha).
      rewrite forallb_forall in A. specialize (A b Hb).
      rewrite (may_coincide_sound TMode a b E) in A. simpl in A.
      apply orb_true_iff in A. destruct A as [A | A].
      * now apply MethodTemplate_eqb_eq.
      * exfalso. apply Hmode.
        now apply (increaseTime_pair_mode TMode a b).
    + apply (NoDup_map_inv (instantiate "")).
      apply nodupb_NoDup. vm_compute. reflexivity.
Qed.

Lemma test_schema_methods_distinct_witness :
  NoDup (methods (TestRpcSchema "hardhat")).
Proof.
  apply (proj2 (test_schema_methods_distinct "hardhat")). discriminate.
Defined.

Lemma entries_of_count (s : RpcSchema) (m : string) :
  NoDup (methods s) ->
  List.length (entries_of m s) = bool_to_nat (has_method m s).
Proof.
  unfold has_method, methods, entries_of.
  induction s as [|e s IH]; simpl; intros H; [reflexivity |].
  inversion H as [| x l Hx Hl]; subst.
  rewrite (String.eqb_sym m).
  destruct (String.eqb (Method e) m) eqn:E; simpl.
  - apply String.eqb_eq in E.
    assert (F : existsb (String.eqb m) (map Method s) = false).
    { apply existsb_none. intros y Hy. apply String.eqb_neq.
      intros <-. apply Hx. now rewrite E. }
    rewrite (IH Hl), F. reflexivity.
  - now apply IH.
Qed.

Lemma entries_of_app (m : string) (s1 s2 : RpcSchema) :
  entries_of m (s1 ++ s2) = entries_of m s1 ++ entries_of m s2.
Proof. unfold entries_of. apply filter_app. Qed.

(** X9: Within the public table no method is declared twice, and none
    within the wallet table; so for every method name the schema of the
    provider has one entry when one of the two tables declares it, two
    when both do, and none otherwise. *)
Theorem provider_schema_entries_per_method :
  NoDup (methods PublicRpcSchema)
  /\ NoDup (methods WalletRpcSchema)
  /\ forall m,
       List.length (entries_of m EIP1474Methods)
       = bool_to_nat (has_method m PublicRpcSchema)
         + bool_to_nat (has_method m WalletRpcSchema).
Proof.
  assert (Hp : NoDup (methods PublicRpcSchema))
    by (apply nodupb_NoDup; vm_compute; reflexivity).
  assert (Hw : NoDup (methods WalletRpcSchema))
    by (apply nodupb_NoDup; vm_compute; reflexivity).
  repeat split; try assumption.
  intros m. unfold EIP1474Methods.
  rewrite entries_of_app, length_app.
  now rewrite (@entries_of_count _ m Hp), (@entries_of_count _ m Hw).
Qed.

(** ** Provider events *)

(** X10: [removeListener] has an overload for exactly the events [on] has
    one for, in the same order, and for every event but [accountsChanged]
    the two take the same listener type; for [accountsChanged] they
    differ: [on] takes a listener of [string[]], [removeListener] one of
    [Address[]]. *)
Theorem provider_events_on_and_removeListener :
  map event EIP1193Events_on = map event EIP1193Events_removeListener
  /\ (forall ev,
        ev <> "accountsChanged" ->
        listener_for ev EIP1193Events_on
        = listener_for ev EIP1193Events_removeListener)
  /\ listener_for "accountsChanged" EIP1193Events_on
     = Some (listener_of "accounts" (TArray TString))
  /\ listener_for "accountsChanged" EIP1193Events_removeListener
     = Some (listener_of "accounts" (TArray Address))
  /\ (forall ev,
        listener_for ev EIP1193Events_on = None
        <-> ~ In ev ["connect"; "disconnect"; "chainChanged";
                     "accountsChanged"; "message"]).
Proof.
  split; [reflexivity |]. split; [| split; [reflexivity |
                                            split; [reflexivity |]]].
  - intros ev Hne. apply String.eqb_neq in Hne.
    unfold EIP1193Events_on, EIP1193Events_removeListener, listener_for.
    cbn [event listener]. rewrite Hne. reflexivity.
  - intros ev. unfold EIP1193Events_on, listener_for. cbn [event listener].
    split.
    + intros H Hin. simpl in Hin.
      destruct Hin as [<- | [<- | [<- | [<- | [<- | []]]]]];
        discriminate H.
    + intros Hn.
      destruct (String.eqb ev "connect") eqn:E1;
        [apply String.eqb_eq in E1; subst; exfalso; apply Hn; simpl; tauto |].
      destruct (String.eqb ev "disconnect") eqn:E2;
        [apply String.eqb_eq in E2; subst; exfalso; apply Hn; simpl; tauto |].
      destruct (String.eqb ev "chainChanged") eqn:E3;
        [apply String.eqb_eq in E3; subst; exfalso; apply Hn; simpl; tauto |].
      destruct (String.eqb ev "accountsChanged") eqn:E4;
        [apply String.eqb_eq in E4; subst; exfalso; apply Hn; simpl; tauto |].
      destruct (String.eqb ev "message") eqn:E5;
        [apply String.eqb_eq in E5; subst; exfalso; apply Hn; simpl; tauto |].
      reflexivity.
Qed.

Lemma provider_events_witness :
  listener_for "disconnect" EIP1193Events_on
  = listener_for "disconnect" EIP1193Events_removeListener.
Proof.
  apply (proj1 (proj2 provider_events_on_and_removeListener) "disconnect").
  discriminate.
Defined.

(** ** Two actions in sequence *)

(** X11: Two [increaseTime] actions awaited one after the other send their
    two requests in that order, the second in the world the first left.
    The second request is never sent if [numberToHex] throws at the first
    [seconds] (then nothing is sent at all), if the first request rejects,
    or if [numberToHex] throws at the second [seconds]; in each case that
    exception or rejection is the outcome. *)
Theorem increaseTime_in_sequence
    (number World Error_ : Type)
    (numberToHex : number -> Completion Error_ string)
    (client : TestClient number World Error_)
    (first second : IncreaseTimeParameters number) (w : World) :
  let args (hex : string) : RequestArguments number :=
    {| method := "evm_increaseTime"; params := [JsString hex] |} in
  await (increaseTime numberToHex client first)
        (fun _ => increaseTime numberToHex client second) w
    = match numberToHex (seconds first) with
      | Throws _ e => (Rejected _ e, w)
      | Returns h1 =>
          match request client (args h1) w with
          | (Rejected _ e, w1) => (Rejected _ e, w1)
          | (Fulfilled _, w1) =>
              match numberToHex (seconds second) with
              | Throws _ e => (Rejected _ e, w1)
              | Returns h2 => request client (args h2) w1
              end
          end
      end
  /\ snd (snd (await (increaseTime numberToHex (spy client) first)
                     (fun _ => increaseTime numberToHex (spy client) second)
                     (w, [])))
     = match numberToHex (seconds first) with
       | Throws _ _ => []
       | Returns h1 =>
           match fst (request client (args h1) w) with
           | Rejected _ _ => [args h1]
           | Fulfilled _ =>
               match numberToHex (seconds second) with
               | Throws _ _ => [args h1]
               | Returns h2 => [args h1; args h2]
               end
           end
       end.
Proof.
  intros args.
  assert (E : forall W (c : TestClient number W Error_)
                     (q : IncreaseTimeParameters number) (x : W),
             increaseTime numberToHex c q x
             = match numberToHex (seconds q) with
               | Returns hex => request c (args hex) x
               | Throws _ e => (Rejected _ e, x)
               end).
  { intros W c q x. unfold increaseTime, await, evaluate, resolve.
    destruct (numberToHex (seconds q)) as [hex | e]; [| reflexivity].
    fold (args hex). destruct (request c (args hex) x) as [[a | e] x'];
      reflexivity. }
  split.
  - unfold await. rewrite E.
    destruct (numberToHex (seconds first)) as [h1 | e]; [| reflexivity].
    destruct (request client (args h1) w) as [[a | e] w1]; [| reflexivity].
    apply E.
  - unfold await. rewrite E.
    destruct (numberToHex (seconds first)) as [h1 | e]; [| reflexivity].
    simpl. destruct (request client (args h1) w) as [[a | e] w1]; simpl;
      [| reflexivity].
    rewrite E.
    destruct (numberToHex (seconds second)) as [h2 | e]; [| reflexivity].
    simpl. destruct (request client (args h2) w1) as [r w2]. reflexivity.
Qed.

(** ** The empty schema *)

(** X12: An empty schema accepts no call at all, whereas no schema accepts
    every call; and since overrides replace the schema instead of
    extending it, empty overrides turn the request function of any schema
    into one that accepts nothing. *)
Theorem empty_schema_accepts_nothing
    (TRpcSchema : option RpcSchema) (m : string) (p : option TsType) :
  EIP1193RequestFn (Some []) None (call_args m p) = None
  /\ EIP1193RequestFn TRpcSchema (Some []) (call_args m p) = None
  /\ EIP1193RequestFn None None (call_args m p) <> None.
Proof.
  split; [| split].
  - now rewrite (@request_fn_on_call (Some []) None [] m p eq_refl).
  - now rewrite (@request_fn_on_call TRpcSchema (Some []) [] m p eq_refl).
  - unfold EIP1193RequestFn. cbn [DerivedRpcSchema EIP1193Parameters].
    assert (E : assignable (call_args m p)
                  (TObject [req "method" TString; opt "params" TUnknown])
                = true).
    { destruct p as [p |]; unfold call_args, args_type, args_type_no_params;
        rewrite assignable_object_object; cbn [forallb];
        unfold prop_assignable, req, opt; simpl lookup_prop;
        cbv beta iota; [| reflexivity].
      change (mk_union [TUnknown; TUndefined]) with TUnknown.
      now rewrite assignable_unknown. }
    rewrite E. discriminate.
Qed.

(** ** The mining method of the test table *)

Lemma test_entries_instantiating (TMode : string) (t0 : MethodTemplate)
    (e : RpcSchemaEntry) :
  In e (TestRpcSchema TMode) -> Method e = instantiate TMode t0 ->
  exists t e0,
    In (t, e0)
       (filter (fun r => may_coincide (fst r) t0) TestRpcSchema_rows)
    /\ shape e = shape e0.
Proof.
  intros He Hm.
  destruct (@TestRpcSchema_entry_row TMode e He) as [t [e0 [Hin [Et Es]]]].
  exists t, e0. split; [| assumption].
  apply filter_In. split; [assumption |]. cbn [fst].
  apply may_coincide_sound with (TMode := TMode). congruence.
Qed.

(** What an entry's type fitting itself comes to. *)
Lemma entry_type_fits_itself (e : RpcSchemaEntry) :
  assignable (entry_type e) (entry_type e)
  = (if Parameters_optional e
     then assignable (Parameters e) (mk_union [Parameters e; TUndefined])
     else assignable (Parameters e) (Parameters e))
    && assignable (ReturnType e) (ReturnType e).
Proof.
  unfold entry_type. rewrite assignable_object_object. cbn [forallb].
  unfold prop_assignable. simpl lookup_prop. cbv beta iota.
  rewrite assignable_strlit, String.eqb_refl.
  destruct (Parameters_optional e); cbn [negb andb];
    now rewrite andb_true_r.
Qed.

(** X13: At every mode the mining method of the test table is named by
    the mode, [`${TMode}_mine`], and takes two positional params: a call
    with the block count alone is refused, as is a call without params,
    while the interval may be passed as [undefined] or as a [Hex]; the
    result is [Promise<void>]. *)
Theorem mine_calls (TMode : string) :
  let request := EIP1193RequestFn (Some (TestRpcSchema TMode)) None in
  let mine := (TMode ++ "_mine")%string in
  request (call_args mine None) = None
  /\ request (call_args mine (Some (TTuple [unl Hex]))) = None
  /\ request (call_args mine (Some (TTuple [unl Hex; unl TUndefined])))
     = Some {| fn_args :=
                 call_args mine (Some (TTuple [unl Hex; unl TUndefined]));
               fn_result := Promise_ TVoid |}
  /\ request (call_args mine (Some (TTuple [unl Hex; unl Hex])))
     = Some {| fn_args :=
                 call_args mine (Some (TTuple [unl Hex; unl Hex]));
               fn_result := Promise_ TVoid |}.
Proof.
  intros request mine. subst request.
  set (P := TTuple [lbl "count" Hex;
                    lbl "interval" (TUnion [Hex; TUndefined])]).
  set (e0 := with_params mine P TVoid).
  assert (Hin : In e0 (TestRpcSchema TMode)) by (simpl; tauto).
  assert (Hnamed : forall e, In e (TestRpcSchema TMode) ->
                     Method e = mine ->
                     read_type (Parameters_optional e, Parameters e) = P).
  { intros e He Hm.
    destruct (@test_entries_instantiating TMode (ModePrefixed "_mine") e
                He Hm) as [t [e1 [Hf Hs]]].
    assert (F : filter
                  (fun r => may_coincide (fst r) (ModePrefixed "_mine"))
                  TestRpcSchema_rows
                = [(ModePrefixed "_mine", with_params "_mine" P TVoid)])
      by (vm_compute; reflexivity).
    rewrite F in Hf. destruct Hf as [E | []]. injection E as _ <-.
    unfold shape in Hs. injection Hs as -> -> _. reflexivity. }
  assert (Hr : assignable (entry_type e0) (entry_type e0) = true).
  { rewrite entry_type_fits_itself. reflexivity. }
  repeat split.
  - apply call_rejected. intros e He Hm. now rewrite (Hnamed e He Hm).
  - apply call_rejected. intros e He Hm. now rewrite (Hnamed e He Hm).
  - etransitivity;
      [apply (@call_accepted (TestRpcSchema TMode) e0
                (Some (TTuple [unl Hex; unl TUndefined])));
       [assumption | assumption | reflexivity] |].
    now rewrite (@test_call_return_type TMode e0 _ Hin).
  - etransitivity;
      [apply (@call_accepted (TestRpcSchema TMode) e0
                (Some (TTuple [unl Hex; unl Hex])));
       [assumption | assumption | reflexivity] |].
    now rewrite (@test_call_return_type TMode e0 _ Hin).
Qed.

(** ** Every entry has its arm *)

(** The check [TRpcSchema[K] extends TRpcSchema[number]] that guards an arm
    of [EIP1193Parameters] comes down to the entry's type fitting itself;
    it does for every entry of the three tables, at every mode, the
    intersection in the params of [eth_getLogs] included. *)
Lemma table_entries_fit_themselves (TMode : string) :
  Forall (fun e => assignable (entry_type e) (entry_type e) = true)
    (PublicRpcSchema ++ WalletRpcSchema ++ TestRpcSchema TMode).
Proof.
  repeat (apply Forall_cons;
          [rewrite entry_type_fits_itself; reflexivity |]).
  apply Forall_nil.
Qed.
